(** * ideacanvas: the real-time collaboration engine of
      backend/src/services/socketHandlers.js

    The handlers of [setupSocketHandlers] are embedded as functions that
    take the socket, the server state (the persisted boards and the two
    module-level tables [locks] and [presence]) and the request, and
    return the new socket, the new server state and the events emitted,
    in emission order.

    Scope of the embedding.
    - A JavaScript object used as a record or dictionary is a finite map
      from property names to values; reading a missing property gives
      [VUndefined].  The enumeration order of the keys of an object
      (property-creation order in JavaScript) is not recorded by a finite
      map: where a handler emits one event per key, or sends the values
      of an object as one list, these are listed in [map_to_list] order,
      and the statements about them are made up to that order.
    - Field values are the JavaScript primitives; numbers are integers.
      [new Date()] is represented by the clock reading in milliseconds.
    - [Date.now()] is a parameter [now] of the handler: the clock readings
      taken while one request is handled are equal.
    - [Board.findById] is a lookup in the stored boards and [board.save()]
      an insertion: each handler runs from load to save without another
      handler in between, and the store does not fail.  Mongoose's casting
      and validation of documents are not part of the handlers: a handler
      stores the object it built, and it reads the lock table as a finite
      map.  [Schema] gives the payloads that [shapeSchema] accepts and
      keeps as they are, and [Plain] the lookup of a lock as JavaScript
      evaluates it on an object literal; a statement that takes them as
      its conditions does not rest on this assumption. *)

From Stdlib Require Import ZArith String List Lia.
From stdpp Require Import base option list gmap strings fin_maps.

Local Open Scope Z_scope.
Local Open Scope string_scope.

(** ** JavaScript values and objects *)

Module JS.

Inductive value : Type :=
| VUndefined
| VNull
| VBool (b : bool)
| VNum (n : Z)
| VStr (s : string).

#[global] Instance value_eq_dec : EqDecision value.
Proof. solve_decision. Defined.

(** ToBoolean on the primitives. *)
Definition truthy (v : value) : bool :=
  match v with
  | VUndefined | VNull => false
  | VBool b => b
  | VNum n => negb (Z.eqb n 0)
  | VStr s => negb (String.eqb s "")
  end.

(** [a === b] on primitives. *)
Definition strict_eq (a b : value) : bool := bool_decide (a = b).

(** [a || b] *)
Definition or_else (a b : value) : value := if truthy a then a else b.

(** [o[k]], also written [o.k]. *)
Definition prop (o : gmap string value) (k : string) : value :=
  default VUndefined (o !! k).

(** [Object.assign(target, source)]: every own property of [source] is
    written to [target]. *)
Definition assign (target source : gmap string value) : gmap string value :=
  source ∪ target.

(** [r = {}; Object.keys(ks).forEach((key) => { r[key] = o[key]; })] *)
Definition pick (ks o : gmap string value) : gmap string value :=
  map_imap (fun key _ => Some (prop o key)) ks.

(** [arr.findIndex(p)], with [None] for [-1]. *)
Fixpoint findIndex {A : Type} (p : A -> bool) (l : list A) : option nat :=
  match l with
  | [] => None
  | x :: l' => if p x then Some 0%nat else S <$> findIndex p l'
  end.

End JS.

Export JS.

Abbreviation jsobj := (gmap string value).

(** ** Board documents (backend/src/models/Board.js) *)

(** The payload of an op together with its [opType]: the three payload
    layouts of the op schema's comment, as a tagged variant. *)
Inductive op_payload : Type :=
| Create (shape : jsobj)
| Update (shapeId : value) (changes : jsobj) (oldValues : option jsobj)
| Delete (shapeId : value) (deletedShape : jsobj).

#[global] Instance op_payload_eq_dec : EqDecision op_payload.
Proof. solve_decision. Defined.

Record op : Type := mkOp {
  payload : op_payload;
  createdBy : value;
  createdAt : Z
}.

#[global] Instance op_eq_dec : EqDecision op.
Proof. solve_decision. Defined.

Record board : Type := mkBoard {
  ownerId : string;
  allowedUsers : list string;
  shapes : list jsobj;
  ops : list op
}.

Definition with_shapes (b : board) (ss : list jsobj) : board :=
  mkBoard (ownerId b) (allowedUsers b) ss (ops b).

(** [board.ops.push(o)] *)
Definition push_op (b : board) (o : op) : board :=
  mkBoard (ownerId b) (allowedUsers b) (shapes b) (ops b ++ [o]).

(** [(s) => s.id === v] *)
Definition has_id (v : value) (s : jsobj) : bool := strict_eq (prop s "id") v.

(** ** The operation log: [createUndoOp] and [applyOpToBoard] *)

(** [createUndoOp(op, board)]; [None] is the [null] result. *)
Definition createUndoOp (o : op_payload) (b : board) : option op_payload :=
  match o with
  | Create shape => Some (Delete (prop shape "id") shape)
  | Delete _ deletedShape => Some (Create deletedShape)
  | Update shapeId changes _ =>
      match List.find (has_id shapeId) (shapes b) with
      | None => None
      | Some shape => Some (Update shapeId (pick changes shape) None)
      end
  end.

(** [applyOpToBoard(board, op)] *)
Definition applyOpToBoard (b : board) (o : op_payload) : board :=
  match o with
  | Create shape =>
      match List.find (has_id (prop shape "id")) (shapes b) with
      | None => with_shapes b (shapes b ++ [shape])
      | Some _ => b
      end
  | Delete shapeId _ =>
      with_shapes b (List.filter (fun s => negb (has_id shapeId s)) (shapes b))
  | Update shapeId changes _ =>
      match findIndex (has_id shapeId) (shapes b) with
      | Some shapeIndex =>
          with_shapes b (alter (fun s => assign s changes) shapeIndex (shapes b))
      | None => b
      end
  end.

(** [replay]: the shape set obtained from the empty set by applying the
    ops of a log in order (the replay of the specification, built on the
    code's [applyOpToBoard]). *)
Definition replay (log : list op) : list jsobj :=
  shapes (fold_left applyOpToBoard (payload <$> log) (mkBoard "" [] [] [])).

(** ** Sockets, locks and presence *)

Module User.
Record t : Type := mk { userId : string; name : string; email : string }.
End User.

Module Socket.
Record t : Type := mk {
  id : string;
  userData : option User.t;
  currentBoardId : option string
}.
End Socket.

Module Lock.
Record t : Type := mk { socketId : string; userId : string; timestamp : Z }.
End Lock.

Module Presence.
Record t : Type := mk {
  userId : string;
  userName : string;
  color : string;
  cursor : value * value
}.
End Presence.

#[global] Instance user_eq_dec : EqDecision User.t.
Proof. solve_decision. Defined.
#[global] Instance socket_eq_dec : EqDecision Socket.t.
Proof. solve_decision. Defined.
#[global] Instance lock_eq_dec : EqDecision Lock.t.
Proof. solve_decision. Defined.
#[global] Instance presence_eq_dec : EqDecision Presence.t.
Proof. solve_decision. Defined.

(** The stored boards and the module-level [locks] and [presence]. *)
Record server : Type := mkServer {
  db : gmap string board;
  locks : gmap string (gmap string Lock.t);
  presence : gmap string (gmap string Presence.t)
}.

Definition with_db (sv : server) (d : gmap string board) : server :=
  mkServer d (locks sv) (presence sv).
Definition with_locks (sv : server) (l : gmap string (gmap string Lock.t)) : server :=
  mkServer (db sv) l (presence sv).
Definition with_presence (sv : server)
    (p : gmap string (gmap string Presence.t)) : server :=
  mkServer (db sv) (locks sv) p.

(** [board.save()] for the board loaded under [boardId], when the store
    accepts the document; [Schema] below says for which shapes it does. *)
Definition save (boardId : string) (b : board) (sv : server) : server :=
  with_db sv (<[boardId := b]> (db sv)).

(** Events sent to clients. *)
Inductive event : Type :=
| EvError (message : string)
| EvBoardState (shapes : list jsobj) (ops : list op) (locks : gmap string Lock.t)
| EvPresenceState (entries : list Presence.t)
| EvUserJoined (entry : Presence.t)
| EvUserLeft (socketId : string)
| EvDrawStart (data : jsobj)
| EvDrawDelta (data : jsobj)
| EvDrawEnd (data : jsobj)
| EvShapeCreated (shape : jsobj)
| EvShapeUpdated (shapeId : string) (changes : jsobj)
| EvShapeDeleted (shapeId : string)
| EvUndoApplied (undoOp : op) (shapes : list jsobj)
| EvLockUpdate (objectId : string) (locked : bool) (userId : option string)
| EvLockFailed (objectId : string) (lockedBy : string)
| EvCursorUpdate (userId : string) (cursor : jsobj).

(** [socket.emit], [io.to(room).emit] and [socket.to(room).emit]. *)
Inductive target : Type :=
| ToSocket (socketId : string)
| ToRoom (boardId : string)
| ToOthers (boardId : string) (sender : string).

#[global] Instance event_eq_dec : EqDecision event.
Proof. solve_decision. Defined.
#[global] Instance target_eq_dec : EqDecision target.
Proof. solve_decision. Defined.

Record outcome : Type := mkOutcome {
  sock : Socket.t;
  srv : server;
  out : list (target * event)
}.

(** A handler that returns without touching anything. *)
Definition ignore (sk : Socket.t) (sv : server) : outcome := mkOutcome sk sv [].

(** [socket.emit("error", { message })] followed by [return]. *)
Definition emit_error (sk : Socket.t) (sv : server) (message : string) : outcome :=
  mkOutcome sk sv [(ToSocket (Socket.id sk), EvError message)].

(** The board the guard [if (!socket.currentBoardId) return;] lets through:
    [null] and the empty string are falsy. *)
Definition currentBoard (sk : Socket.t) : option string :=
  match Socket.currentBoardId sk with
  | Some boardId => if String.eqb boardId "" then None else Some boardId
  | None => None
  end.

(** [socket.userData?.userId || null] *)
Definition actor (sk : Socket.t) : value :=
  match Socket.userData sk with
  | Some u => or_else (VStr (User.userId u)) VNull
  | None => VNull
  end.

(** [socket.userData?.userId || socket.id] *)
Definition userId_or_id (sk : Socket.t) : string :=
  match Socket.userData sk with
  | Some u => if String.eqb (User.userId u) "" then Socket.id sk else User.userId u
  | None => Socket.id sk
  end.

(** ** The lock table *)

Definition LOCK_TIMEOUT : Z := 30000.

(** [now - lock.timestamp > LOCK_TIMEOUT] *)
Definition expired (now : Z) (l : Lock.t) : Prop :=
  LOCK_TIMEOUT < now - Lock.timestamp l.

#[global] Instance expired_dec now l : Decision (expired now l).
Proof. unfold expired. apply _. Defined.

(** [cleanExpiredLocks(boardId)] at clock reading [now]. *)
Definition cleanExpiredLocks (now : Z) (boardId : string)
    (lk : gmap string (gmap string Lock.t)) : gmap string (gmap string Lock.t) :=
  match lk !! boardId with
  | None => lk
  | Some tbl =>
      let tbl' := filter (fun kv : string * Lock.t => ¬ expired now kv.2) tbl in
      if decide (size tbl' = 0%nat) then delete boardId lk
      else <[boardId := tbl']> lk
  end.

(** [locks[boardId]?.[objectId]], for the locks that the table holds as
    its own properties; [Plain.lock_of] below adds the members that
    every table inherits. *)
Definition lock_of (lk : gmap string (gmap string Lock.t))
    (boardId objectId : string) : option Lock.t :=
  lk !! boardId ≫= fun tbl => tbl !! objectId.

(** ** The event handlers of [setupSocketHandlers] *)

Definition colors : list string :=
  ["#FF6B6B"; "#4ECDC4"; "#45B7D1"; "#FFA07A";
   "#98D8C8"; "#F7DC6F"; "#BB8FCE"; "#85C1E2"].

(** [generateUserColor()], with [rnd] for
    [Math.floor(Math.random() * colors.length)]. *)
Definition generateUserColor (rnd : nat) : string :=
  nth (rnd mod length colors) colors "".

(** [checkBoardAccess(boardId, userId)] *)
Definition checkBoardAccess (sv : server) (boardId : string)
    (userId : option string) : bool :=
  match db sv !! boardId with
  | None => false
  | Some b =>
      match userId with
      | None => false
      | Some uid =>
          if String.eqb uid "" then false
          else String.eqb (ownerId b) uid
               || existsb (fun a => String.eqb a uid) (allowedUsers b)
      end
  end.

(** [delete presence[boardId][socketId]] under [if (presence[boardId])]. *)
Definition presence_remove (boardId socketId : string)
    (p : gmap string (gmap string Presence.t)) : gmap string (gmap string Presence.t) :=
  match p !! boardId with
  | Some tbl => <[boardId := delete socketId tbl]> p
  | None => p
  end.

(** [join-board]: [auth] is [None] when the request has no token and
    otherwise the result of [authenticateSocket(token)]. *)
Definition on_join_board (boardId : string) (auth : option (option User.t))
    (rnd : nat) (sk : Socket.t) (sv : server) : outcome :=
  let sk1 :=
    match auth with
    | Some r => Socket.mk (Socket.id sk) r (Socket.currentBoardId sk)
    | None => sk
    end in
  if negb (checkBoardAccess sv boardId (User.userId <$> Socket.userData sk1))
  then emit_error sk1 sv "Access denied to this board"
  else
    let sv1 :=
      match currentBoard sk1 with
      | Some prev => with_presence sv (presence_remove prev (Socket.id sk1) (presence sv))
      | None => sv
      end in
    let sk2 := Socket.mk (Socket.id sk1) (Socket.userData sk1) (Some boardId) in
    match db sv1 !! boardId with
    | None => emit_error sk2 sv1 "Board not found"
    | Some b =>
        let entry :=
          Presence.mk
            (match Socket.userData sk2 with
             | Some u => if String.eqb (User.userId u) ""
                         then "guest-" ++ Socket.id sk2 else User.userId u
             | None => "guest-" ++ Socket.id sk2
             end)
            (match Socket.userData sk2 with
             | Some u => if String.eqb (User.name u) "" then "Guest" else User.name u
             | None => "Guest"
             end)
            (generateUserColor rnd)
            (VNum 0, VNum 0) in
        let tbl := <[Socket.id sk2 := entry]> (default ∅ (presence sv1 !! boardId)) in
        let sv2 := with_presence sv1 (<[boardId := tbl]> (presence sv1)) in
        mkOutcome sk2 sv2
          [(ToSocket (Socket.id sk2),
            EvBoardState (shapes b) (ops b) (default ∅ (locks sv2 !! boardId)));
           (ToSocket (Socket.id sk2), EvPresenceState (snd <$> map_to_list tbl));
           (ToOthers boardId (Socket.id sk2), EvUserJoined entry)]
    end.

(** [leave-board] *)
Definition on_leave_board (sk : Socket.t) (sv : server) : outcome :=
  match currentBoard sk with
  | None => ignore sk sv
  | Some boardId =>
      let sk' := Socket.mk (Socket.id sk) (Socket.userData sk) None in
      match presence sv !! boardId with
      | Some tbl =>
          mkOutcome sk'
            (with_presence sv (<[boardId := delete (Socket.id sk) tbl]> (presence sv)))
            [(ToOthers boardId (Socket.id sk), EvUserLeft (Socket.id sk))]
      | None => mkOutcome sk' sv []
      end
  end.

(** [{ ...data, userId: socket.userData?.userId || socket.id }] *)
Definition with_userId (sk : Socket.t) (data : jsobj) : jsobj :=
  <["userId" := VStr (userId_or_id sk)]> data.

(** [draw-start] *)
Definition on_draw_start (data : jsobj) (sk : Socket.t) (sv : server) : outcome :=
  match currentBoard sk with
  | None => ignore sk sv
  | Some boardId =>
      mkOutcome sk sv [(ToOthers boardId (Socket.id sk), EvDrawStart (with_userId sk data))]
  end.

(** [draw-delta] *)
Definition on_draw_delta (data : jsobj) (sk : Socket.t) (sv : server) : outcome :=
  match currentBoard sk with
  | None => ignore sk sv
  | Some boardId =>
      mkOutcome sk sv [(ToOthers boardId (Socket.id sk), EvDrawDelta (with_userId sk data))]
  end.

(** The shape object built by [draw-end]. *)
Definition path_shape (now : Z) (data : jsobj) (sk : Socket.t) : jsobj :=
  list_to_map
    [("id", prop data "id"); ("type", VStr "path");
     ("points", prop data "points"); ("color", prop data "color");
     ("strokeWidth", prop data "strokeWidth");
     ("layer", or_else (prop data "layer") (VStr "default"));
     ("createdBy", actor sk); ("createdAt", VNum now)].

(** The shape object built by [create-shape]. *)
Definition new_shape (now : Z) (data : jsobj) (sk : Socket.t) : jsobj :=
  list_to_map
    [("id", prop data "id"); ("type", prop data "type");
     ("x", prop data "x"); ("y", prop data "y");
     ("width", prop data "width"); ("height", prop data "height");
     ("color", prop data "color"); ("strokeWidth", prop data "strokeWidth");
     ("text", or_else (prop data "text") VNull);
     ("layer", or_else (prop data "layer") (VStr "default"));
     ("createdBy", actor sk); ("createdAt", VNum now)].

(** [board.shapes.push(shape); board.ops.push(op)] of both create handlers. *)
Definition push_created (now : Z) (shape : jsobj) (sk : Socket.t) (b : board) : board :=
  push_op (with_shapes b (shapes b ++ [shape])) (mkOp (Create shape) (actor sk) now).

(** [draw-end] *)
Definition on_draw_end (now : Z) (data : jsobj) (sk : Socket.t) (sv : server) : outcome :=
  match currentBoard sk with
  | None => ignore sk sv
  | Some boardId =>
      match db sv !! boardId with
      | None => ignore sk sv
      | Some b =>
          let shape := path_shape now data sk in
          mkOutcome sk (save boardId (push_created now shape sk b) sv)
            [(ToRoom boardId, EvDrawEnd (with_userId sk data))]
      end
  end.

(** [create-shape] *)
Definition on_create_shape (now : Z) (data : jsobj) (sk : Socket.t) (sv : server) : outcome :=
  match currentBoard sk with
  | None => ignore sk sv
  | Some boardId =>
      match db sv !! boardId with
      | None => ignore sk sv
      | Some b =>
          let shape := new_shape now data sk in
          mkOutcome sk (save boardId (push_created now shape sk b) sv)
            [(ToRoom boardId, EvShapeCreated shape)]
      end
  end.

(** [lock && lock.socketId !== socket.id] *)
Definition locked_by_other (l : option Lock.t) (sk : Socket.t) : bool :=
  match l with
  | Some lock => negb (String.eqb (Lock.socketId lock) (Socket.id sk))
  | None => false
  end.

(** [update-shape] *)
Definition on_update_shape (now : Z) (shapeId : string) (changes : jsobj)
    (sk : Socket.t) (sv : server) : outcome :=
  match currentBoard sk with
  | None => ignore sk sv
  | Some boardId =>
      match db sv !! boardId with
      | None => ignore sk sv
      | Some b =>
          match findIndex (has_id (VStr shapeId)) (shapes b) with
          | None => emit_error sk sv "Shape not found"
          | Some shapeIndex =>
              let sv1 := with_locks sv (cleanExpiredLocks now boardId (locks sv)) in
              if locked_by_other (lock_of (locks sv1) boardId shapeId) sk
              then emit_error sk sv1 "Object is locked by another user"
              else
                let shape := default ∅ (shapes b !! shapeIndex) in
                let oldValues := pick changes shape in
                let b1 := with_shapes b
                            (alter (fun s => assign s changes) shapeIndex (shapes b)) in
                let o := mkOp (Update (VStr shapeId) changes (Some oldValues))
                              (actor sk) now in
                mkOutcome sk (save boardId (push_op b1 o) sv1)
                  [(ToRoom boardId, EvShapeUpdated shapeId changes)]
          end
      end
  end.

(** [delete-shape] *)
Definition on_delete_shape (now : Z) (shapeId : string)
    (sk : Socket.t) (sv : server) : outcome :=
  match currentBoard sk with
  | None => ignore sk sv
  | Some boardId =>
      match db sv !! boardId with
      | None => ignore sk sv
      | Some b =>
          match List.find (has_id (VStr shapeId)) (shapes b) with
          | None => emit_error sk sv "Shape not found"
          | Some shape =>
              let sv1 := with_locks sv (cleanExpiredLocks now boardId (locks sv)) in
              if locked_by_other (lock_of (locks sv1) boardId shapeId) sk
              then emit_error sk sv1 "Object is locked by another user"
              else
                let b1 := with_shapes b
                            (List.filter (fun s => negb (has_id (VStr shapeId) s))
                                         (shapes b)) in
                let o := mkOp (Delete (VStr shapeId) shape) (actor sk) now in
                mkOutcome sk (save boardId (push_op b1 o) sv1)
                  [(ToRoom boardId, EvShapeDeleted shapeId)]
          end
      end
  end.

(** [undo] *)
Definition on_undo (now : Z) (sk : Socket.t) (sv : server) : outcome :=
  match currentBoard sk with
  | None => ignore sk sv
  | Some boardId =>
      match db sv !! boardId with
      | None => emit_error sk sv "Nothing to undo"
      | Some b =>
          match last (ops b) with
          | None => emit_error sk sv "Nothing to undo"
          | Some lastOp =>
              match createUndoOp (payload lastOp) b with
              | None => emit_error sk sv "Cannot undo this operation"
              | Some undoOp =>
                  let b1 := applyOpToBoard b undoOp in
                  let o := mkOp undoOp (actor sk) now in
                  mkOutcome sk (save boardId (push_op b1 o) sv)
                    [(ToRoom boardId, EvUndoApplied o (shapes b1))]
              end
          end
      end
  end.

(** [redo] *)
Definition on_redo (sk : Socket.t) (sv : server) : outcome :=
  match currentBoard sk with
  | None => ignore sk sv
  | Some _ => emit_error sk sv "Redo not fully implemented - use undo to reverse"
  end.

(** [lock-object] *)
Definition on_lock_object (now : Z) (objectId : string)
    (sk : Socket.t) (sv : server) : outcome :=
  match currentBoard sk with
  | None => ignore sk sv
  | Some boardId =>
      let lk1 := cleanExpiredLocks now boardId (locks sv) in
      let tbl := default ∅ (lk1 !! boardId) in
      let lk2 := <[boardId := tbl]> lk1 in
      match tbl !! objectId with
      | Some existingLock =>
          if negb (String.eqb (Lock.socketId existingLock) (Socket.id sk))
          then mkOutcome sk (with_locks sv lk2)
                 [(ToSocket (Socket.id sk),
                   EvLockFailed objectId (Lock.userId existingLock))]
          else
            let l := Lock.mk (Socket.id sk) (userId_or_id sk) now in
            mkOutcome sk (with_locks sv (<[boardId := <[objectId := l]> tbl]> lk2))
              [(ToRoom boardId, EvLockUpdate objectId true (Some (userId_or_id sk)))]
      | None =>
          let l := Lock.mk (Socket.id sk) (userId_or_id sk) now in
          mkOutcome sk (with_locks sv (<[boardId := <[objectId := l]> tbl]> lk2))
            [(ToRoom boardId, EvLockUpdate objectId true (Some (userId_or_id sk)))]
      end
  end.

(** [unlock-object] *)
Definition on_unlock_object (objectId : string)
    (sk : Socket.t) (sv : server) : outcome :=
  match currentBoard sk with
  | None => ignore sk sv
  | Some boardId =>
      match locks sv !! boardId with
      | None => ignore sk sv
      | Some tbl =>
          match tbl !! objectId with
          | None => ignore sk sv
          | Some l =>
              if negb (String.eqb (Lock.socketId l) (Socket.id sk))
              then ignore sk sv
              else mkOutcome sk
                     (with_locks sv (<[boardId := delete objectId tbl]> (locks sv)))
                     [(ToRoom boardId, EvLockUpdate objectId false None)]
          end
      end
  end.

(** [cursor-move] *)
Definition on_cursor_move (data : jsobj) (sk : Socket.t) (sv : server) : outcome :=
  match currentBoard sk with
  | None => ignore sk sv
  | Some boardId =>
      match presence sv !! boardId ≫= fun tbl => tbl !! Socket.id sk with
      | None => ignore sk sv
      | Some entry =>
          let entry' := Presence.mk (Presence.userId entry) (Presence.userName entry)
                          (Presence.color entry) (prop data "x", prop data "y") in
          let tbl := default ∅ (presence sv !! boardId) in
          mkOutcome sk
            (with_presence sv (<[boardId := <[Socket.id sk := entry']> tbl]> (presence sv)))
            [(ToOthers boardId (Socket.id sk),
              EvCursorUpdate (Presence.userId entry') data)]
      end
  end.

(** The locks of a table that [socketId] holds. *)
Definition held_by (socketId : string) (tbl : gmap string Lock.t) : gmap string Lock.t :=
  filter (fun kv : string * Lock.t => Lock.socketId kv.2 = socketId) tbl.

(** The table after the release loop of [disconnect]. *)
Definition release_all (socketId : string) (tbl : gmap string Lock.t) : gmap string Lock.t :=
  filter (fun kv : string * Lock.t => Lock.socketId kv.2 ≠ socketId) tbl.

(** [disconnect] *)
Definition on_disconnect (sk : Socket.t) (sv : server) : outcome :=
  match currentBoard sk with
  | None => ignore sk sv
  | Some boardId =>
      let '(sv1, gone) :=
        match presence sv !! boardId with
        | Some tbl =>
            (with_presence sv (<[boardId := delete (Socket.id sk) tbl]> (presence sv)),
             [(ToOthers boardId (Socket.id sk), EvUserLeft (Socket.id sk))])
        | None => (sv, [])
        end in
      match locks sv1 !! boardId with
      | Some tbl =>
          mkOutcome sk
            (with_locks sv1 (<[boardId := release_all (Socket.id sk) tbl]> (locks sv1)))
            (gone ++ ((fun kv : string * Lock.t =>
                         (ToRoom boardId, EvLockUpdate kv.1 false None))
                      <$> map_to_list (held_by (Socket.id sk) tbl)))%list
      | None => mkOutcome sk sv1 gone
      end
  end.

(** The periodic sweep: [cleanExpiredLocks] for every board of [locks]. *)
Definition sweep (now : Z) (sv : server) : server :=
  with_locks sv
    (foldr (fun boardId lk => cleanExpiredLocks now boardId lk) (locks sv)
           (map_to_list (locks sv)).*1).

(** ** The server as a transition system *)

Inductive request : Type :=
| JoinBoard (boardId : string) (auth : option (option User.t)) (rnd : nat)
| LeaveBoard
| DrawStart (data : jsobj)
| DrawDelta (data : jsobj)
| DrawEnd (data : jsobj)
| CreateShape (data : jsobj)
| UpdateShape (shapeId : string) (changes : jsobj)
| DeleteShape (shapeId : string)
| Undo
| Redo
| LockObject (objectId : string)
| UnlockObject (objectId : string)
| CursorMove (data : jsobj)
| Disconnect.

(** [socket.on(name, handler)]: the handler registered for each request. *)
Definition handle (now : Z) (r : request) (sk : Socket.t) (sv : server) : outcome :=
  match r with
  | JoinBoard boardId auth rnd => on_join_board boardId auth rnd sk sv
  | LeaveBoard => on_leave_board sk sv
  | DrawStart data => on_draw_start data sk sv
  | DrawDelta data => on_draw_delta data sk sv
  | DrawEnd data => on_draw_end now data sk sv
  | CreateShape data => on_create_shape now data sk sv
  | UpdateShape shapeId changes => on_update_shape now shapeId changes sk sv
  | DeleteShape shapeId => on_delete_shape now shapeId sk sv
  | Undo => on_undo now sk sv
  | Redo => on_redo sk sv
  | LockObject objectId => on_lock_object now objectId sk sv
  | UnlockObject objectId => on_unlock_object objectId sk sv
  | CursorMove data => on_cursor_move data sk sv
  | Disconnect => on_disconnect sk sv
  end.

(** What reaches the server: a new connection, a request of a connected
    socket at clock reading [now], or a tick of the sweep timer. *)
Inductive input : Type :=
| Connection (socketId : string)
| Request (now : Z) (socketId : string) (r : request)
| Sweep (now : Z).

Record world : Type := mkWorld {
  sockets : gmap string Socket.t;
  state : server
}.

Definition step (w : world) (i : input) : world * list (target * event) :=
  match i with
  | Connection socketId =>
      (mkWorld (<[socketId := Socket.mk socketId None None]> (sockets w)) (state w), [])
  | Request now socketId r =>
      match sockets w !! socketId with
      | None => (w, [])
      | Some sk =>
          let o := handle now r sk (state w) in
          (mkWorld (match r with
                    | Disconnect => delete socketId (sockets w)
                    | _ => <[socketId := sock o]> (sockets w)
                    end) (srv o), out o)
      end
  | Sweep now => (mkWorld (sockets w) (sweep now (state w)), [])
  end.

(** The world after a sequence of inputs, and the events it emitted. *)
Fixpoint run (w : world) (tr : list input) : world * list (target * event) :=
  match tr with
  | [] => (w, [])
  | i :: tr' =>
      let '(w1, es) := step w i in
      let '(w2, es') := run w1 tr' in
      (w2, (es ++ es')%list)
  end.

(** A board as [POST /api/boards] stores it. *)
Definition new_board (owner : string) : board := mkBoard owner [owner] [] [].

(** The server at start-up over the stored boards [d]. *)
Definition start (d : gmap string board) : world :=
  mkWorld ∅ (mkServer d ∅ ∅).

(** The worlds the server reaches from start-up over freshly created
    boards. *)
Inductive reachable : world -> Prop :=
| reach_start (d : gmap string board) :
    (forall boardId b, d !! boardId = Some b -> shapes b = [] /\ ops b = []) ->
    reachable (start d)
| reach_step (w : world) (i : input) :
    reachable w -> reachable (step w i).1.

(** ** A board shared by two clients, used in the examples *)

Module Demo.

Definition alice : User.t := User.mk "u1" "Alice" "alice@example.org".
Definition bob : User.t := User.mk "u2" "Bob" "bob@example.org".

Definition w0 : world := start {["b" := mkBoard "u1" ["u1"; "u2"] [] []]}.

Definition skA : Socket.t := Socket.mk "A" (Some alice) (Some "b").
Definition skB : Socket.t := Socket.mk "B" (Some bob) (Some "b").

(** Both clients connect and join board [b]. *)
Definition joined : list input :=
  [Connection "A"; Request 0 "A" (JoinBoard "b" (Some (Some alice)) 0);
   Connection "B"; Request 0 "B" (JoinBoard "b" (Some (Some bob)) 1)].

Definition rect (id : string) (x : Z) : jsobj :=
  list_to_map [("id", VStr id); ("type", VStr "rect"); ("x", VNum x);
               ("y", VNum 0); ("width", VNum 10); ("height", VNum 10)].

(** Board [b] after [A] has created the rectangle [s1] at time 0. *)
Definition b1 : board :=
  push_created 0 (new_shape 0 (rect "s1" 0) skA) skA (mkBoard "u1" ["u1"; "u2"] [] []).

(** Board [b] after [A] has then deleted [s1] at time 1. *)
Definition b2 : board :=
  mkBoard "u1" ["u1"; "u2"] []
    [mkOp (Create (new_shape 0 (rect "s1" 0) skA)) (VStr "u1") 0;
     mkOp (Delete (VStr "s1") (new_shape 0 (rect "s1" 0) skA)) (VStr "u1") 1].

End Demo.

(** ** Statements about single requests *)

(** The requests that the handlers drop unless the socket has joined a
    board. *)
Definition board_request (r : request) : bool :=
  match r with
  | DrawStart _ | DrawDelta _ | DrawEnd _ | CreateShape _ | UpdateShape _ _
  | DeleteShape _ | Undo | LockObject _ | UnlockObject _ | CursorMove _ => true
  | JoinBoard _ _ _ | LeaveBoard | Redo | Disconnect => false
  end.




(** ** What a request does to the stored boards *)

(** A delete op whose [shapeId] is the id of its [deletedShape]. *)
Definition delete_names_snapshot (p : op_payload) : Prop :=
  match p with
  | Delete shapeId deletedShape => prop deletedShape "id" = shapeId
  | _ => True
  end.

(** The three ways a handler leaves the stored boards: untouched; one
    board stored with an op applied as [applyOpToBoard] applies it and
    appended to its log; or, in the two create handlers, one board stored
    with the new shape pushed and its create op appended. *)
Inductive db_effect (r : request) (sk : Socket.t) (sv sv' : server) : Prop :=
| eff_none :
    db sv' = db sv -> db_effect r sk sv sv'
| eff_apply (boardId : string) (b b1 : board) (o : op) :
    currentBoard sk = Some boardId ->
    db sv !! boardId = Some b ->
    db sv' = <[boardId := push_op b1 o]> (db sv) ->
    ops b1 = ops b ->
    shapes b1 = shapes (applyOpToBoard b (payload o)) ->
    delete_names_snapshot (payload o) ->
    db_effect r sk sv sv'
| eff_create (boardId : string) (b : board) (data shape : jsobj) (o : op) :
    currentBoard sk = Some boardId ->
    db sv !! boardId = Some b ->
    r = CreateShape data \/ r = DrawEnd data ->
    prop shape "id" = prop data "id" ->
    payload o = Create shape ->
    db sv' = <[boardId := push_op (with_shapes b (shapes b ++ [shape])) o]> (db sv) ->
    db_effect r sk sv sv'.

(** Every stored board is what the replay of its log gives. *)
Definition faithful (sv : server) : Prop :=
  forall boardId b, db sv !! boardId = Some b -> replay (ops b) = shapes b.

(** A create request whose id is not the id of a shape of the board. *)
Definition fresh_create (r : request) (sk : Socket.t) (sv : server) : Prop :=
  forall data boardId b,
    r = CreateShape data \/ r = DrawEnd data ->
    currentBoard sk = Some boardId ->
    db sv !! boardId = Some b ->
    List.find (has_id (prop data "id")) (shapes b) = None.

(** When the log of a board ends in a delete op, no shape of the board
    carries the id of the deleted snapshot. *)
Definition last_delete_applied (b : board) : Prop :=
  forall o shapeId deletedShape,
    last (ops b) = Some o ->
    payload o = Delete shapeId deletedShape ->
    List.find (has_id (prop deletedShape "id")) (shapes b) = None.

(** Every create request of the trace is fresh when it is processed. *)
Fixpoint fresh_trace (w : world) (tr : list input) : Prop :=
  match tr with
  | [] => True
  | i :: tr' =>
      match i with
      | Request _ socketId r =>
          forall sk, sockets w !! socketId = Some sk -> fresh_create r sk (state w)
      | _ => True
      end /\ fresh_trace (step w i).1 tr'
  end.

(** ** Statements about undo *)

(** [undo] of [sk] on board [b] appends the op with payload [p] to the log,
    leaves the shape set [ss], which is what applying [p] to [b] gives,
    stores the board and broadcasts both to the room. *)
Definition undo_appends (now : Z) (sk : Socket.t) (sv : server) (boardId : string)
    (b : board) (p : op_payload) (ss : list jsobj) : Prop :=
  out (on_undo now sk sv) =
    [(ToRoom boardId, EvUndoApplied (mkOp p (actor sk) now) ss)] /\
  exists b', db (srv (on_undo now sk sv)) !! boardId = Some b' /\
    ops b' = (ops b ++ [mkOp p (actor sk) now])%list /\
    shapes b' = ss /\
    ss = shapes (applyOpToBoard b p).

(** What [undo] does on board [b] according to the last entry of its log:
    a create op is answered by a delete op that carries the created shape
    and removes every shape of that id; a delete op by a create op that
    puts the recorded snapshot back; an empty log by the error for the
    requester alone. The last part follows a deleted shape through
    [delete-shape] and [undo]: the very shape that was found is back. *)
Definition undo_inverts (now : Z) (sk : Socket.t) (sv : server) (boardId : string)
    (b : board) : Prop :=
  (forall lastOp shape,
     last (ops b) = Some lastOp -> payload lastOp = Create shape ->
     undo_appends now sk sv boardId b (Delete (prop shape "id") shape)
       (List.filter (fun s => negb (has_id (prop shape "id") s)) (shapes b)) /\
     Forall (fun s => prop s "id" <> prop shape "id")
       (List.filter (fun s => negb (has_id (prop shape "id") s)) (shapes b))) /\
  (forall lastOp shapeId deletedShape,
     last (ops b) = Some lastOp -> payload lastOp = Delete shapeId deletedShape ->
     undo_appends now sk sv boardId b (Create deletedShape)
       (shapes b ++ [deletedShape])) /\
  (ops b = [] ->
     on_undo now sk sv = emit_error sk sv "Nothing to undo") /\
  (forall t shapeId shape,
     List.find (has_id (VStr shapeId)) (shapes b) = Some shape ->
     out (on_delete_shape t shapeId sk sv) = [(ToRoom boardId, EvShapeDeleted shapeId)] ->
     exists b', db (srv (on_undo now sk (srv (on_delete_shape t shapeId sk sv))))
                  !! boardId = Some b' /\
       shapes b' = (List.filter (fun s => negb (has_id (VStr shapeId) s)) (shapes b)
                    ++ [shape])%list /\
       payload <$> last (ops b') = Some (Create shape)).

(** ** Statements about [update-shape] with an [id] among the changes *)

(** [update-shape] of [sk] on [shapeId] with [changes] is applied and
    broadcast, and the shape it found, at index [i], now has [newId] as its
    id; when [newId] differs from [shapeId] and no other shape of the
    board has the id [shapeId], later [update-shape] and [delete-shape]
    requests on [shapeId] are answered with the not-found error. *)
Definition id_overwritten (now : Z) (sk : Socket.t) (sv : server)
    (boardId shapeId : string) (b : board) (i : nat) (changes : jsobj)
    (newId : value) : Prop :=
  out (on_update_shape now shapeId changes sk sv) =
    [(ToRoom boardId, EvShapeUpdated shapeId changes)] /\
  exists b' s',
    db (srv (on_update_shape now shapeId changes sk sv)) !! boardId = Some b' /\
    shapes b' !! i = Some s' /\
    prop s' "id" = newId /\
    (newId <> VStr shapeId ->
     (forall j s, j <> i -> shapes b !! j = Some s -> prop s "id" <> VStr shapeId) ->
     forall t sk' changes',
       currentBoard sk' = Some boardId ->
       out (on_update_shape t shapeId changes' sk'
              (srv (on_update_shape now shapeId changes sk sv))) =
         [(ToSocket (Socket.id sk'), EvError "Shape not found")] /\
       out (on_delete_shape t shapeId sk'
              (srv (on_update_shape now shapeId changes sk sv))) =
         [(ToSocket (Socket.id sk'), EvError "Shape not found")]).

(** ** Further statements about the lock table, joining and shapes *)

(** The table of a board after the expiry check: the live locks, or no
    entry when none is live. *)
Definition live_table (now : Z) (tbl : gmap string Lock.t) : option (gmap string Lock.t) :=
  let tbl' := filter (fun kv : string * Lock.t => ¬ expired now kv.2) tbl in
  if decide (size tbl' = 0%nat) then None else Some tbl'.

(** The socket after the token of a [join-board] request has been looked
    at. *)
Definition authenticated (auth : option (option User.t)) (sk : Socket.t) : Socket.t :=
  match auth with
  | Some r => Socket.mk (Socket.id sk) r (Socket.currentBoardId sk)
  | None => sk
  end.

(** The property names of the shape that [create-shape] builds. *)
Definition shape_keys : list string :=
  ["id"; "type"; "x"; "y"; "width"; "height"; "color"; "strokeWidth";
   "text"; "layer"; "createdBy"; "createdAt"].

(** The property names of the shape that [draw-end] builds. *)
Definition path_keys : list string :=
  ["id"; "type"; "points"; "color"; "strokeWidth"; "layer"; "createdBy"; "createdAt"].

(** How a request changes one stored board: not at all, or by storing it
    with one op appended, the owner and the allowed users being the
    same. *)
Definition grows_by_one (b b' : board) : Prop :=
  ownerId b' = ownerId b /\ allowedUsers b' = allowedUsers b /\
  (b' = b \/ exists o, ops b' = (ops b ++ [o])%list).

(** ** The board routes (the router mounted at /api/boards) *)

Module Rest.

(** What a route answers: an error with its status, the board document of
    [GET /:id], or a message, with the allowed users for the invite
    route. *)
Inductive reply : Type :=
| Failure (status : nat) (error : string)
| BoardDoc (b : board)
| Done (message : string) (allowedUsers : option (list string)).

(** [board.ownerId.toString() === req.user.userId ||
     board.allowedUsers.some((id) => id.toString() === req.user.userId)] *)
Definition hasAccess (b : board) (userId : string) : bool :=
  String.eqb (ownerId b) userId
  || existsb (fun id => String.eqb id userId) (allowedUsers b).

(** [GET /api/boards/:id] for the authenticated user [userId]. *)
Definition get_board (d : gmap string board) (id userId : string) : reply :=
  match d !! id with
  | None => Failure 404 "Board not found"
  | Some b =>
      if negb (hasAccess b userId) then Failure 403 "Access denied"
      else BoardDoc b
  end.

(** [DELETE /api/boards/:id] *)
Definition delete_board (d : gmap string board) (id userId : string)
    : reply * gmap string board :=
  match d !! id with
  | None => (Failure 404 "Board not found", d)
  | Some b =>
      if negb (String.eqb (ownerId b) userId)
      then (Failure 403 "Only the owner can delete this board", d)
      else (Done "Board deleted successfully" None, delete id d)
  end.

(** [POST /api/boards/:id/invite]; [users] is the user collection as
    [User.findOne({ email })] reads it, from e-mail address to user id, and
    [userEmail] the field of the request body, [None] when absent. *)
Definition invite (d : gmap string board) (users : gmap string string)
    (id userId : string) (userEmail : option string) : reply * gmap string board :=
  match userEmail with
  | None => (Failure 400 "User email is required", d)
  | Some email =>
      if String.eqb email "" then (Failure 400 "User email is required", d)
      else
        match d !! id with
        | None => (Failure 404 "Board not found", d)
        | Some b =>
            if negb (hasAccess b userId) then (Failure 403 "Access denied", d)
            else
              match users !! email with
              | None => (Failure 404 "User not found", d)
              | Some invited =>
                  if existsb (fun u => String.eqb u invited) (allowedUsers b)
                  then (Failure 400 "User already has access", d)
                  else
                    let b' := mkBoard (ownerId b) (allowedUsers b ++ [invited])
                                (shapes b) (ops b) in
                    (Done "User invited successfully" (Some (allowedUsers b')),
                     <[id := b']> d)
              end
        end
  end.

End Rest.

(** ** The token middleware (middleware/auth.js) and the header the
       client sends ([getAuthHeaders] of the front end's API service) *)

Module Middleware.

Import Stdlib.Strings.Ascii.

(** The separator of [authHeader.split(' ')]. *)
Definition space : ascii := " "%char.

(** [s.split(sep)] for a separator of one character. *)
Fixpoint split (sep : Ascii.ascii) (s : string) : list string :=
  match s with
  | EmptyString => [EmptyString]
  | String c s' =>
      if Ascii.eqb c sep then EmptyString :: split sep s'
      else match split sep s' with
           | piece :: pieces => String c piece :: pieces
           | [] => [String c EmptyString]
           end
  end.

(** [authHeader && authHeader.split(' ')[1]]; [None] is [undefined]. *)
Definition token_of (authHeader : option string) : option string :=
  match authHeader with
  | None => None
  | Some h => if String.eqb h "" then Some "" else split space h !! 1%nat
  end.

(** The [Authorization] header of [getAuthHeaders] for the stored token:
    [...(token && { Authorization: `Bearer ${token}` })]. *)
Definition authorization (token : option string) : option string :=
  match token with
  | None => None
  | Some t => if String.eqb t "" then None else Some ("Bearer " ++ t)
  end.

Section Verify.

(** [jwt.verify(token, process.env.JWT_SECRET)]: the decoded payload, or
    [None] when it throws. *)
Context {decoded : Type} (verify : string -> option decoded).

(** The middleware answers itself or calls [next()] with [req.user]. *)
Inductive result : Type :=
| Answer (status : nat) (error : string)
| Next (user : option decoded).

(** [authenticateToken] *)
Definition authenticateToken (authHeader : option string) : result :=
  match token_of authHeader with
  | None => Answer 401 "Access token required"
  | Some t =>
      if String.eqb t "" then Answer 401 "Access token required"
      else match verify t with
           | Some d => Next (Some d)
           | None => Answer 403 "Invalid or expired token"
           end
  end.

(** [optionalAuth] *)
Definition optionalAuth (authHeader : option string) : result :=
  match token_of authHeader with
  | None => Next None
  | Some t => if String.eqb t "" then Next None else Next (verify t)
  end.

End Verify.

End Middleware.

(** A second stored board, for the examples that need two. *)
Module Demo2.

Definition w0 : world :=
  start {["b" := mkBoard "u1" ["u1"; "u2"] [] []; "c" := new_board "u1"]}.

End Demo2.

(** ** Object literals and the shape schema

    The table [locks] and each table in it are object literals, and the
    shapes of a board are subdocuments of [shapeSchema]
    (backend/src/models/Board.js).  The handlers above read a lock by a
    finite-map lookup and hand a shape to the store as the object they
    built.  [Plain] gives the lookup as JavaScript evaluates it, and
    [Schema] the payloads whose shape [board.save()] takes and keeps as
    it is. *)

Module Plain.

(** The property names of [Object.prototype]: under each of them [o[k]]
    finds a member in every object literal [o], whether or not [o] has a
    property [k] of its own. *)
Definition Object_prototype : list string :=
  ["constructor"; "__defineGetter__"; "__defineSetter__"; "hasOwnProperty";
   "__lookupGetter__"; "__lookupSetter__"; "isPrototypeOf";
   "propertyIsEnumerable"; "toString"; "valueOf"; "__proto__"; "toLocaleString"].

Definition inherited (k : string) : bool :=
  existsb (String.eqb k) Object_prototype.

(** What [locks[boardId]?.[objectId]] finds: nothing, a member of the
    prototype, or a lock of the table. *)
Inductive found : Type :=
| Nothing
| Member
| Held (l : Lock.t).

(** [locks[boardId]?.[objectId]], with the members that a table
    inherits.  The board ids are the ids of stored boards, under which
    [locks] has a table of its own or nothing. *)
Definition lock_of (lk : gmap string (gmap string Lock.t))
    (boardId objectId : string) : found :=
  match lk !! boardId with
  | None => Nothing
  | Some tbl =>
      match tbl !! objectId with
      | Some l => Held l
      | None => if inherited objectId then Member else Nothing
      end
  end.

(** [lock && lock.socketId !== socket.id]: a member of the prototype is
    truthy and has no [socketId]. *)
Definition refuses (f : found) (sk : Socket.t) : bool :=
  match f with
  | Nothing => false
  | Member => true
  | Held l => negb (String.eqb (Lock.socketId l) (Socket.id sk))
  end.

End Plain.

Module Schema.

Inductive kind : Type :=
| KString
| KNumber.

(** The paths of [shapeSchema] that hold a string or a number. *)
Definition paths : list (string * kind) :=
  [("id", KString); ("type", KString);
   ("x", KNumber); ("y", KNumber); ("width", KNumber); ("height", KNumber);
   ("color", KString); ("strokeWidth", KNumber);
   ("text", KString); ("layer", KString)].

Definition kind_of (path : string) : option kind :=
  snd <$> List.find (fun p : string * kind => String.eqb p.1 path) paths.

(** [enum] of the path [type]. *)
Definition types : list string := ["path"; "rect"; "circle"; "text"].

(** [required: true] on a string path: a string, and not the empty one. *)
Definition required (v : value) : bool :=
  match v with
  | VStr s => negb (String.eqb s "")
  | _ => false
  end.

Definition in_enum (v : value) : bool :=
  match v with
  | VStr s => existsb (String.eqb s) types
  | _ => false
  end.

(** A value that the cast to [k] leaves as it is: one of the type, or
    [null]. *)
Definition keeps (k : kind) (v : value) : bool :=
  match k, v with
  | _, VNull => true
  | KString, VStr _ => true
  | KNumber, VNum _ => true
  | _, _ => false
  end.

(** The validators of [path]. *)
Definition valid (path : string) (v : value) : bool :=
  if String.eqb path "id" then required v
  else if String.eqb path "type" then in_enum v
  else true.

(** A value that can be written to [path] of a shape: the path is one of
    [paths], the cast keeps the value and the validators pass. *)
Definition settable (path : string) (v : value) : bool :=
  match kind_of path with
  | Some k => keeps k v && valid path v
  | None => false
  end.

(** The [changes] of an [update-shape] request that the shape takes as
    they are and that the store accepts. *)
Definition accepts (changes : jsobj) : bool :=
  forallb (fun kv : string * value => settable kv.1 kv.2) (map_to_list changes).

(** A field of a request payload that is missing or such that the cast to
    [k] keeps it. *)
Definition given (k : kind) (v : value) : bool :=
  match v with
  | VUndefined => true
  | _ => keeps k v
  end.

(** The payloads of [create-shape] whose shape the store accepts: [id]
    and [type] pass their validators, and each of the other fields read
    from the payload is missing or of the type of its path. *)
Definition creates (data : jsobj) : bool :=
  required (prop data "id") && in_enum (prop data "type") &&
  forallb (fun p : string * kind => given p.2 (prop data p.1)) paths.

(** The payloads of [draw-end] whose shape the store accepts, among those
    that carry no [points]: the values here are the primitives, and the
    array of points of a stroke is not one of them. *)
Definition draws (data : jsobj) : bool :=
  required (prop data "id") &&
  bool_decide (prop data "points" = VUndefined) &&
  given KString (prop data "color") &&
  given KNumber (prop data "strokeWidth") &&
  given KString (prop data "layer").

End Schema.

(** * Properties *)

(** ** Objects and arrays *)

Lemma strict_eq_true (a b : value) : strict_eq a b = true <-> a = b.
Proof. unfold strict_eq. apply bool_decide_eq_true. Qed.

Lemma strict_eq_false (a b : value) : strict_eq a b = false <-> a <> b.
Proof. unfold strict_eq. apply bool_decide_eq_false. Qed.

Lemma has_id_true (v : value) (s : jsobj) : has_id v s = true <-> prop s "id" = v.
Proof. apply strict_eq_true. Qed.

Lemma has_id_false (v : value) (s : jsobj) : has_id v s = false <-> prop s "id" <> v.
Proof. apply strict_eq_false. Qed.

(** Reading a property after [Object.assign]. *)
Lemma prop_assign (target source : jsobj) (k : string) :
  prop (assign target source) k =
  match source !! k with Some v => v | None => prop target k end.
Proof.
  unfold prop, assign. rewrite lookup_union.
  destruct (source !! k), (target !! k); reflexivity.
Qed.

Lemma lookup_pick (ks o : jsobj) (k : string) :
  pick ks o !! k = (fun _ => prop o k) <$> ks !! k.
Proof. unfold pick. rewrite map_lookup_imap. destruct (ks !! k); reflexivity. Qed.

Lemma findIndex_Some {A} (p : A -> bool) (l : list A) (i : nat) :
  findIndex p l = Some i ->
  exists x, l !! i = Some x /\ p x = true /\
            forall j y, (j < i)%nat -> l !! j = Some y -> p y = false.
Proof.
  revert i. induction l as [|a l IH]; intros i; simpl; [discriminate|].
  destruct (p a) eqn:Ha.
  - intros [= <-]. exists a. repeat split; auto. intros j y Hj. lia.
  - destruct (findIndex p l) as [k|]; simpl; [|discriminate].
    intros [= <-]. destruct (IH k eq_refl) as (x & Hx & Hp & Hlt).
    exists x. repeat split; auto.
    intros [|j] y Hj; simpl.
    + intros [= <-]. exact Ha.
    + apply Hlt. lia.
Qed.

Lemma findIndex_None {A} (p : A -> bool) (l : list A) :
  findIndex p l = None <-> Forall (fun x => p x = false) l.
Proof.
  induction l as [|a l IH]; simpl.
  - split; auto.
  - destruct (p a) eqn:Ha.
    + split; [discriminate|]. intros H. inversion H; congruence.
    + destruct (findIndex p l); simpl.
      * split; [discriminate|]. intros H. inversion H; subst.
        apply IH in H3. discriminate.
      * split; auto. intros _. constructor; auto. apply IH. reflexivity.
Qed.

Lemma find_None_Forall {A} (p : A -> bool) (l : list A) :
  List.find p l = None <-> Forall (fun x => p x = false) l.
Proof.
  induction l as [|a l IH]; simpl.
  - split; auto.
  - destruct (p a) eqn:Ha.
    + split; [discriminate|]. intros H. inversion H; congruence.
    + rewrite IH. split; [intros; constructor; auto|].
      intros H. inversion H; auto.
Qed.

(** [find] and [findIndex] locate the same element. *)
Lemma find_findIndex {A} (p : A -> bool) (l : list A) :
  List.find p l = findIndex p l ≫= fun i => l !! i.
Proof.
  induction l as [|a l IH]; simpl; [reflexivity|].
  destruct (p a); [reflexivity|].
  rewrite IH. destruct (findIndex p l); reflexivity.
Qed.

Lemma find_filter_negb {A} (p : A -> bool) (l : list A) :
  List.find p (List.filter (fun x => negb (p x)) l) = None.
Proof.
  apply find_None_Forall. induction l as [|a l IH]; simpl; [constructor|].
  destruct (p a) eqn:Ha; simpl; [exact IH|]. constructor; auto.
Qed.

(** ** The lock table *)

Lemma lock_of_Some (lk : gmap string (gmap string Lock.t)) (boardId objectId : string)
    (l : Lock.t) :
  lock_of lk boardId objectId = Some l <->
  exists tbl, lk !! boardId = Some tbl /\ tbl !! objectId = Some l.
Proof.
  unfold lock_of. destruct (lk !! boardId) as [tbl|]; simpl.
  - split; [eauto|]. intros (t & [= <-] & H). exact H.
  - split; [discriminate|]. intros (t & [=] & _).
Qed.

(** What an access finds after the lazy expiry check. *)
Lemma lock_of_cleanExpiredLocks (now : Z) (lk : gmap string (gmap string Lock.t))
    (boardId objectId : string) :
  lock_of (cleanExpiredLocks now boardId lk) boardId objectId =
  lock_of lk boardId objectId ≫=
    fun l => if decide (expired now l) then None else Some l.
Proof.
  unfold lock_of, cleanExpiredLocks.
  destruct (lk !! boardId) as [tbl|] eqn:Htbl; simpl; [|by rewrite Htbl].
  assert (Hf : filter (fun kv : string * Lock.t => ¬ expired now kv.2) tbl !! objectId =
          tbl !! objectId ≫= fun l => if decide (expired now l) then None else Some l).
  { rewrite map_lookup_filter. destruct (tbl !! objectId) as [l|]; simpl; [|done].
    destruct (decide (expired now l)); simpl.
    - rewrite option_guard_False; [done|]. simpl. tauto.
    - rewrite option_guard_True; done. }
  destruct (decide _) as [Hz|Hz].
  - rewrite lookup_delete_eq. simpl.
    apply map_size_empty_iff in Hz. rewrite <- Hf, Hz. by rewrite lookup_empty.
  - rewrite lookup_insert_eq. simpl. exact Hf.
Qed.

Lemma lock_of_clean_live (now : Z) (lk : gmap string (gmap string Lock.t))
    (boardId objectId : string) (l : Lock.t) :
  lock_of lk boardId objectId = Some l -> ¬ expired now l ->
  lock_of (cleanExpiredLocks now boardId lk) boardId objectId = Some l.
Proof.
  intros H Hl. rewrite lock_of_cleanExpiredLocks, H. simpl.
  destruct (decide (expired now l)); [contradiction|reflexivity].
Qed.


Lemma lock_of_default (lk : gmap string (gmap string Lock.t)) (boardId objectId : string) :
  default ∅ (lk !! boardId) !! objectId = lock_of lk boardId objectId.
Proof. unfold lock_of. destruct (lk !! boardId); simpl; [done|apply lookup_empty]. Qed.

Lemma lock_of_insert (lk : gmap string (gmap string Lock.t)) (boardId objectId : string)
    (tbl : gmap string Lock.t) :
  lock_of (<[boardId := tbl]> lk) boardId objectId = tbl !! objectId.
Proof. unfold lock_of. by rewrite lookup_insert_eq. Qed.

(** [lock-object] when the object is free or already held by the
    requester: the lock is written with the current clock reading. *)
Lemma lock_object_granted (now : Z) (objectId boardId : string)
    (sk : Socket.t) (sv : server) :
  currentBoard sk = Some boardId ->
  (forall l, lock_of (cleanExpiredLocks now boardId (locks sv)) boardId objectId = Some l ->
             Lock.socketId l = Socket.id sk) ->
  out (on_lock_object now objectId sk sv) =
    [(ToRoom boardId, EvLockUpdate objectId true (Some (userId_or_id sk)))] /\
  lock_of (locks (srv (on_lock_object now objectId sk sv))) boardId objectId =
    Some (Lock.mk (Socket.id sk) (userId_or_id sk) now).
Proof.
  intros Hb Hown. unfold on_lock_object. rewrite Hb.
  rewrite lock_of_default.
  destruct (lock_of _ boardId objectId) as [l|] eqn:Hl.
  - rewrite (Hown l eq_refl), String.eqb_refl. simpl.
    split; [reflexivity|]. rewrite lock_of_insert. apply lookup_insert_eq.
  - simpl. split; [reflexivity|]. rewrite lock_of_insert. apply lookup_insert_eq.
Qed.

(** [lock-object] when another socket holds a live lock. *)
Lemma lock_object_denied (now : Z) (objectId boardId : string)
    (sk : Socket.t) (sv : server) (l : Lock.t) :
  currentBoard sk = Some boardId ->
  lock_of (cleanExpiredLocks now boardId (locks sv)) boardId objectId = Some l ->
  Lock.socketId l <> Socket.id sk ->
  out (on_lock_object now objectId sk sv) =
    [(ToSocket (Socket.id sk), EvLockFailed objectId (Lock.userId l))] /\
  lock_of (locks (srv (on_lock_object now objectId sk sv))) boardId objectId = Some l.
Proof.
  intros Hb Hl Hne. unfold on_lock_object. rewrite Hb.
  rewrite lock_of_default, Hl.
  apply String.eqb_neq in Hne. rewrite Hne. simpl.
  split; [reflexivity|]. rewrite lock_of_insert, lock_of_default. exact Hl.
Qed.

Lemma locked_by_other_false (l : option Lock.t) (sk : Socket.t) :
  locked_by_other l sk = false <->
  forall lock, l = Some lock -> Lock.socketId lock = Socket.id sk.
Proof.
  unfold locked_by_other. destruct l as [lock|].
  - rewrite negb_false_iff, String.eqb_eq. split.
    + intros H ? [= <-]. exact H.
    + intros H. apply H. reflexivity.
  - split; [intros _ ? [=]|reflexivity].
Qed.


(** ** The handlers on a joined socket *)

(** Unfold a handler up to its lock check, for a socket that has joined a
    board that is in the store. *)
Ltac enter_handler h Hb Hdb :=
  unfold h; rewrite Hb, Hdb; simpl.

Section JoinedSocket.

Variables (now : Z) (boardId shapeId : string) (sk : Socket.t) (sv : server)
          (b : board).
Hypothesis joined : currentBoard sk = Some boardId.
Hypothesis stored : db sv !! boardId = Some b.

(** The lock table after the expiry check of the handler. *)
Let cleaned : gmap string (gmap string Lock.t) :=
  cleanExpiredLocks now boardId (locks sv).

(** [update-shape] once the shape is found and the lock check passes. *)
Lemma update_shape_applied (changes : jsobj) (i : nat) :
  findIndex (has_id (VStr shapeId)) (shapes b) = Some i ->
  locked_by_other (lock_of cleaned boardId shapeId) sk = false ->
  on_update_shape now shapeId changes sk sv =
    mkOutcome sk
      (save boardId
         (push_op (with_shapes b (alter (fun s => assign s changes) i (shapes b)))
            (mkOp (Update (VStr shapeId) changes
                     (Some (pick changes (default ∅ (shapes b !! i)))))
               (actor sk) now))
         (with_locks sv cleaned))
      [(ToRoom boardId, EvShapeUpdated shapeId changes)].
Proof.
  intros Hi Hl. enter_handler on_update_shape joined stored.
  rewrite Hi. simpl. fold cleaned. rewrite Hl. reflexivity.
Qed.


(** [delete-shape] once the shape is found and the lock check passes. *)
Lemma delete_shape_applied (shape : jsobj) :
  List.find (has_id (VStr shapeId)) (shapes b) = Some shape ->
  locked_by_other (lock_of cleaned boardId shapeId) sk = false ->
  on_delete_shape now shapeId sk sv =
    mkOutcome sk
      (save boardId
         (push_op (with_shapes b
                     (List.filter (fun s => negb (has_id (VStr shapeId) s)) (shapes b)))
            (mkOp (Delete (VStr shapeId) shape) (actor sk) now))
         (with_locks sv cleaned))
      [(ToRoom boardId, EvShapeDeleted shapeId)].
Proof.
  intros Hf Hl. enter_handler on_delete_shape joined stored.
  rewrite Hf. simpl. fold cleaned. rewrite Hl. reflexivity.
Qed.

(** [delete-shape] on a found shape that another socket holds locked. *)
Lemma delete_shape_conflict (shape : jsobj) :
  List.find (has_id (VStr shapeId)) (shapes b) = Some shape ->
  locked_by_other (lock_of cleaned boardId shapeId) sk = true ->
  on_delete_shape now shapeId sk sv =
    emit_error sk (with_locks sv cleaned) "Object is locked by another user".
Proof.
  intros Hf Hl. enter_handler on_delete_shape joined stored.
  rewrite Hf. simpl. fold cleaned. rewrite Hl. reflexivity.
Qed.

(** A shape that neither handler finds. *)
Lemma shape_not_found (changes : jsobj) :
  Forall (fun s => has_id (VStr shapeId) s = false) (shapes b) ->
  on_update_shape now shapeId changes sk sv = emit_error sk sv "Shape not found" /\
  on_delete_shape now shapeId sk sv = emit_error sk sv "Shape not found".
Proof.
  intros Hgone. split.
  - enter_handler on_update_shape joined stored.
    rewrite (proj2 (findIndex_None _ _) Hgone). reflexivity.
  - enter_handler on_delete_shape joined stored.
    rewrite (proj2 (find_None_Forall _ _) Hgone). reflexivity.
Qed.

End JoinedSocket.


(** ** Requests of a socket that has not joined a board *)

Lemma world_insert_same (w : world) (socketId : string) (sk : Socket.t) :
  sockets w !! socketId = Some sk ->
  mkWorld (<[socketId := sk]> (sockets w)) (state w) = w.
Proof. intros H. destruct w as [ss st]. simpl in *. by rewrite insert_id. Qed.

(** C9. A drawing, shape, undo, lock or cursor request of a socket that
    has not joined a board is dropped by its handler: the socket and the
    server state (boards, locks, presence) stay as they are and no event,
    not even an error, is emitted. *)
Theorem unjoined_request_ignored (w : world) (now : Z) (socketId : string)
    (sk : Socket.t) (r : request) :
  sockets w !! socketId = Some sk ->
  currentBoard sk = None ->
  board_request r = true ->
  handle now r sk (state w) = mkOutcome sk (state w) [] /\
  step w (Request now socketId r) = (w, []).
Proof.
  intros Hs Hb Hr.
  assert (Hh : handle now r sk (state w) = mkOutcome sk (state w) []).
  { destruct r; simpl in Hr; try discriminate; simpl;
      [ unfold on_draw_start | unfold on_draw_delta | unfold on_draw_end
      | unfold on_create_shape | unfold on_update_shape | unfold on_delete_shape
      | unfold on_undo | unfold on_lock_object | unfold on_unlock_object
      | unfold on_cursor_move ]; rewrite Hb; reflexivity. }
  split; [exact Hh|].
  unfold step. rewrite Hs, Hh. simpl.
  destruct r; simpl in Hr; try discriminate;
    rewrite (world_insert_same w socketId sk Hs); reflexivity.
Qed.

Lemma unjoined_request_ignored_witness :
  let w := (run Demo.w0 [Connection "A"]).1 in
  sockets w !! "A" = Some (Socket.mk "A" None None) /\
  step w (Request 7 "A" (UpdateShape "s1" {["x" := VNum 5]})) = (w, []).
Proof.
  split; [reflexivity|].
  apply (unjoined_request_ignored (run Demo.w0 [Connection "A"]).1 7 "A"
           (Socket.mk "A" None None) (UpdateShape "s1" {["x" := VNum 5]}));
    reflexivity.
Defined.

(** ** The lock protocol *)

(** C6, as the code has it. A [lock-object] request of the holder of a live
    lock is granted, and the lock is written anew with the clock reading of
    the request: the time-out of the lock now runs from this request. *)
Theorem reacquire_sets_timestamp (now : Z) (boardId objectId : string)
    (sk : Socket.t) (sv : server) (l : Lock.t) :
  currentBoard sk = Some boardId ->
  lock_of (locks sv) boardId objectId = Some l ->
  Lock.socketId l = Socket.id sk ->
  ¬ expired now l ->
  out (on_lock_object now objectId sk sv) =
    [(ToRoom boardId, EvLockUpdate objectId true (Some (userId_or_id sk)))] /\
  lock_of (locks (srv (on_lock_object now objectId sk sv))) boardId objectId =
    Some (Lock.mk (Socket.id sk) (userId_or_id sk) now).
Proof.
  intros Hb Hl Hown Hlive. apply lock_object_granted; [exact Hb|].
  intros l'. rewrite (lock_of_clean_live now _ _ _ l Hl Hlive).
  intros [= <-]. exact Hown.
Qed.

Lemma reacquire_sets_timestamp_witness :
  let sv := state (run Demo.w0 (Demo.joined ++ [Request 0 "A" (LockObject "s1")])).1 in
  lock_of (locks sv) "b" "s1" = Some (Lock.mk "A" "u1" 0) /\
  lock_of (locks (srv (on_lock_object 10 "s1" Demo.skA sv))) "b" "s1" =
    Some (Lock.mk "A" "u1" 10).
Proof.
  split; [reflexivity|].
  apply (reacquire_sets_timestamp 10 "b" "s1" Demo.skA _ (Lock.mk "A" "u1" 0));
    [reflexivity | reflexivity | reflexivity | unfold expired, LOCK_TIMEOUT; simpl; lia].
Defined.

(** C6, as the claim states it, fails: the holder re-requests at time 10 a
    lock it took at time 0; the request is granted and the stored
    timestamp is 10, not 0. *)
Lemma reacquire_keeps_timestamp_counterexample :
  let w := (run Demo.w0 (Demo.joined ++ [Request 0 "A" (LockObject "s1")])).1 in
  let r := step w (Request 10 "A" (LockObject "s1")) in
  (Lock.timestamp <$> lock_of (locks (state w)) "b" "s1" = Some 0 /\
   Lock.socketId <$> lock_of (locks (state w)) "b" "s1" = Some "A" /\
   ¬ expired 10 (Lock.mk "A" "u1" 0)) /\
  r.2 = [(ToRoom "b", EvLockUpdate "s1" true (Some "u1"))] /\
  Lock.timestamp <$> lock_of (locks (state r.1)) "b" "s1" = Some 10 /\
  Lock.timestamp <$> lock_of (locks (state r.1)) "b" "s1" <>
    Lock.timestamp <$> lock_of (locks (state w)) "b" "s1".
Proof.
  repeat split; try reflexivity.
  - unfold expired, LOCK_TIMEOUT. simpl. lia.
  - vm_compute. discriminate.
Qed.




Lemma db_save (boardId : string) (b : board) (sv : server) :
  db (save boardId b sv) !! boardId = Some b.
Proof. unfold save. simpl. apply lookup_insert_eq. Qed.




(** ** The effect of a request on the stored boards *)

Lemma prop_new_shape_id (now : Z) (data : jsobj) (sk : Socket.t) :
  prop (new_shape now data sk) "id" = prop data "id".
Proof. unfold new_shape, prop at 1. rewrite list_to_map_cons, lookup_insert_eq. reflexivity. Qed.

Lemma prop_path_shape_id (now : Z) (data : jsobj) (sk : Socket.t) :
  prop (path_shape now data sk) "id" = prop data "id".
Proof. unfold path_shape, prop at 1. rewrite list_to_map_cons, lookup_insert_eq. reflexivity. Qed.

Lemma createUndoOp_names_snapshot (p q : op_payload) (b : board) :
  createUndoOp p b = Some q -> delete_names_snapshot q.
Proof.
  destruct p; simpl.
  - intros [= <-]. reflexivity.
  - destruct (List.find _ _); intros [= <-]. exact I.
  - intros [= <-]. exact I.
Qed.

Lemma find_has_id (v : value) (l : list jsobj) (s : jsobj) :
  List.find (has_id v) l = Some s -> prop s "id" = v.
Proof. intros H. apply find_some in H as [_ H]. apply has_id_true. exact H. Qed.

Lemma handle_db_effect (now : Z) (r : request) (sk : Socket.t) (sv : server) :
  db_effect r sk sv (srv (handle now r sk sv)).
Proof.
  destruct r; simpl.
  - (* join-board *)
    unfold on_join_board. destruct (negb _); [by apply eff_none|].
    destruct (currentBoard _); simpl; (destruct (db sv !! boardId); by apply eff_none).
  - unfold on_leave_board. destruct (currentBoard sk); [|by apply eff_none].
    destruct (presence sv !! _); by apply eff_none.
  - unfold on_draw_start. destruct (currentBoard sk); by apply eff_none.
  - unfold on_draw_delta. destruct (currentBoard sk); by apply eff_none.
  - (* draw-end *)
    unfold on_draw_end. destruct (currentBoard sk) as [boardId|] eqn:Hb; [|by apply eff_none].
    destruct (db sv !! boardId) as [b|] eqn:Hdb; [|by apply eff_none].
    eapply (eff_create _ _ _ _ boardId b data); eauto using prop_path_shape_id.
    reflexivity.
  - (* create-shape *)
    unfold on_create_shape. destruct (currentBoard sk) as [boardId|] eqn:Hb; [|by apply eff_none].
    destruct (db sv !! boardId) as [b|] eqn:Hdb; [|by apply eff_none].
    eapply (eff_create _ _ _ _ boardId b data); eauto using prop_new_shape_id.
    reflexivity.
  - (* update-shape *)
    unfold on_update_shape. destruct (currentBoard sk) as [boardId|] eqn:Hb; [|by apply eff_none].
    destruct (db sv !! boardId) as [b|] eqn:Hdb; [|by apply eff_none].
    destruct (findIndex _ _) as [i|] eqn:Hi; [|by apply eff_none].
    simpl. destruct (locked_by_other _ _); [by apply eff_none|].
    eapply (eff_apply _ _ _ _ boardId b);
      [exact Hb | exact Hdb | reflexivity | reflexivity | | exact I].
    simpl. rewrite Hi. reflexivity.
  - (* delete-shape *)
    unfold on_delete_shape. destruct (currentBoard sk) as [boardId|] eqn:Hb; [|by apply eff_none].
    destruct (db sv !! boardId) as [b|] eqn:Hdb; [|by apply eff_none].
    destruct (List.find _ _) as [shape|] eqn:Hf; [|by apply eff_none].
    simpl. destruct (locked_by_other _ _); [by apply eff_none|].
    eapply (eff_apply _ _ _ _ boardId b);
      [exact Hb | exact Hdb | reflexivity | reflexivity | reflexivity |].
    simpl. eapply find_has_id; eauto.
  - (* undo *)
    unfold on_undo. destruct (currentBoard sk) as [boardId|] eqn:Hb; [|by apply eff_none].
    destruct (db sv !! boardId) as [b|] eqn:Hdb; [|by apply eff_none].
    destruct (last (ops b)) as [lastOp|]; [|by apply eff_none].
    destruct (createUndoOp _ _) as [undoOp|] eqn:Hu; [|by apply eff_none].
    eapply (eff_apply _ _ _ _ boardId b (applyOpToBoard b undoOp));
      [exact Hb | exact Hdb | reflexivity | | reflexivity |].
    + destruct undoOp; simpl; repeat case_match; reflexivity.
    + simpl. eapply createUndoOp_names_snapshot; eauto.
  - unfold on_redo. destruct (currentBoard sk); by apply eff_none.
  - unfold on_lock_object. destruct (currentBoard sk); [|by apply eff_none].
    simpl. repeat case_match; by apply eff_none.
  - unfold on_unlock_object. repeat case_match; by apply eff_none.
  - unfold on_cursor_move. repeat case_match; by apply eff_none.
  - unfold on_disconnect. destruct (currentBoard sk); [|by apply eff_none].
    destruct (presence sv !! _); simpl; (destruct (locks sv !! _); by apply eff_none).
Qed.

(** ** Replay of the log *)

Lemma applyOpToBoard_ops (b : board) (p : op_payload) :
  ops (applyOpToBoard b p) = ops b.
Proof. destruct p; simpl; repeat case_match; reflexivity. Qed.

(** What [applyOpToBoard] does to the shapes depends on the shapes only. *)
Lemma applyOpToBoard_shapes_ext (b b' : board) (p : op_payload) :
  shapes b = shapes b' ->
  shapes (applyOpToBoard b p) = shapes (applyOpToBoard b' p).
Proof.
  intros H. destruct p; simpl; rewrite <- H; repeat case_match; simpl; congruence.
Qed.

Lemma replay_snoc (log : list op) (o : op) (b : board) :
  shapes b = replay log ->
  replay (log ++ [o]) = shapes (applyOpToBoard b (payload o)).
Proof.
  intros H. unfold replay. rewrite fmap_app, fold_left_app. simpl.
  apply applyOpToBoard_shapes_ext. symmetry. exact H.
Qed.

Lemma run_cons (w : world) (i : input) (tr : list input) :
  (run w (i :: tr)).1 = (run (step w i).1 tr).1.
Proof. simpl. destruct (step w i) as [w1 es]. simpl. destruct (run w1 tr). reflexivity. Qed.

Lemma reachable_run (w : world) (tr : list input) :
  reachable w -> reachable (run w tr).1.
Proof.
  revert w. induction tr as [|i tr IH]; intros w Hw; [exact Hw|].
  rewrite run_cons. apply IH. apply reach_step. exact Hw.
Qed.

Lemma reachable_demo : reachable Demo.w0.
Proof.
  apply reach_start. intros boardId b H.
  apply lookup_singleton_Some in H as [_ <-]. split; reflexivity.
Qed.

Lemma handle_faithful (now : Z) (r : request) (sk : Socket.t) (sv : server) :
  faithful sv -> fresh_create r sk sv -> faithful (srv (handle now r sk sv)).
Proof.
  intros Hf Hfresh.
  destruct (handle_db_effect now r sk sv)
    as [Hsame | boardId b b1 o Hb Hdb Hdb' Hops Hsh _
              | boardId b data shape o Hb Hdb Hr Hid Hp Hdb'];
    intros boardId' b'.
  - rewrite Hsame. apply Hf.
  - rewrite Hdb'. destruct (decide (boardId = boardId')) as [<-|Hne].
    + rewrite lookup_insert_eq. intros [= <-]. simpl. rewrite Hops.
      rewrite (replay_snoc (ops b) o b) by (symmetry; eauto). symmetry. exact Hsh.
    + rewrite lookup_insert_ne by exact Hne. apply Hf.
  - rewrite Hdb'. destruct (decide (boardId = boardId')) as [<-|Hne].
    + rewrite lookup_insert_eq. intros [= <-]. simpl.
      rewrite (replay_snoc (ops b) o b) by (symmetry; eauto).
      rewrite Hp. simpl. rewrite Hid, (Hfresh data boardId b Hr Hb Hdb). reflexivity.
    + rewrite lookup_insert_ne by exact Hne. apply Hf.
Qed.

Lemma step_faithful (w : world) (i : input) :
  faithful (state w) ->
  match i with
  | Request _ socketId r =>
      forall sk, sockets w !! socketId = Some sk -> fresh_create r sk (state w)
  | _ => True
  end ->
  faithful (state (step w i).1).
Proof.
  intros Hf Hfresh. destruct i as [socketId | now socketId r | now]; simpl.
  - exact Hf.
  - destruct (sockets w !! socketId) as [sk|] eqn:Hs; simpl; [|exact Hf].
    apply handle_faithful; auto.
  - exact Hf.
Qed.

(** As long as no create request repeats the id of a shape of its board,
    every stored board equals the replay of its log. *)
Lemma run_faithful (tr : list input) (w : world) :
  faithful (state w) -> fresh_trace w tr -> faithful (state (run w tr).1).
Proof.
  revert w. induction tr as [|i tr IH]; intros w Hf Hfresh; [exact Hf|].
  rewrite run_cons. destruct Hfresh as [Hi Htr].
  apply IH; [|exact Htr]. apply step_faithful; assumption.
Qed.

Lemma start_faithful (d : gmap string board) :
  (forall boardId b, d !! boardId = Some b -> shapes b = [] /\ ops b = []) ->
  faithful (state (start d)).
Proof.
  intros Hd boardId b H. destruct (Hd boardId b H) as [-> ->]. reflexivity.
Qed.

(** ** The last op of a reachable board *)

Lemma handle_last_delete (now : Z) (r : request) (sk : Socket.t) (sv : server) :
  (forall boardId b, db sv !! boardId = Some b -> last_delete_applied b) ->
  forall boardId b, db (srv (handle now r sk sv)) !! boardId = Some b ->
                    last_delete_applied b.
Proof.
  intros Hinv.
  destruct (handle_db_effect now r sk sv)
    as [Hsame | boardId b b1 o Hb Hdb Hdb' Hops Hsh Hwf
              | boardId b data shape o Hb Hdb Hr Hid Hp Hdb'];
    intros boardId' b'.
  - rewrite Hsame. apply Hinv.
  - rewrite Hdb'. destruct (decide (boardId = boardId')) as [<-|Hne].
    + rewrite lookup_insert_eq. intros [= <-] o' shapeId d. simpl.
      rewrite last_snoc. intros [= <-] Hp. rewrite Hp in Hwf, Hsh. simpl in *.
      rewrite Hsh, Hwf. apply find_filter_negb.
    + rewrite lookup_insert_ne by exact Hne. apply Hinv.
  - rewrite Hdb'. destruct (decide (boardId = boardId')) as [<-|Hne].
    + rewrite lookup_insert_eq. intros [= <-] o' shapeId d. simpl.
      rewrite last_snoc. intros [= <-] Hp'. congruence.
    + rewrite lookup_insert_ne by exact Hne. apply Hinv.
Qed.

Lemma reachable_last_delete (w : world) :
  reachable w ->
  forall boardId b, db (state w) !! boardId = Some b -> last_delete_applied b.
Proof.
  induction 1 as [d Hd | w i Hw IH].
  - intros boardId b H o shapeId s. destruct (Hd boardId b H) as [_ ->]. discriminate.
  - destruct i as [socketId | now socketId r | now]; simpl; [exact IH | | exact IH].
    destruct (sockets w !! socketId) as [sk|]; simpl; [|exact IH].
    apply handle_last_delete. exact IH.
Qed.

(** ** Undo *)

Lemma filter_negb_has_id (v : value) (l : list jsobj) :
  Forall (fun s => prop s "id" <> v) (List.filter (fun s => negb (has_id v s)) l).
Proof.
  apply Forall_forall. intros s Hs. apply list_elem_of_In, filter_In in Hs as [_ Hs].
  apply has_id_false. apply negb_true_iff. exact Hs.
Qed.

(** [undo] once the log has a last op that [createUndoOp] can invert. *)
Lemma undo_applied (now : Z) (sk : Socket.t) (sv : server) (boardId : string)
    (b : board) (lastOp : op) (p : op_payload) :
  currentBoard sk = Some boardId ->
  db sv !! boardId = Some b ->
  last (ops b) = Some lastOp ->
  createUndoOp (payload lastOp) b = Some p ->
  undo_appends now sk sv boardId b p (shapes (applyOpToBoard b p)).
Proof.
  intros Hb Hdb Hlast Hu. unfold undo_appends, on_undo.
  rewrite Hb, Hdb, Hlast, Hu. simpl. split; [reflexivity|].
  eexists. rewrite lookup_insert_eq. split; [reflexivity|]. simpl.
  rewrite applyOpToBoard_ops. repeat split; reflexivity.
Qed.

(** A shape removed by [delete-shape] is put back by the [undo] that
    follows. *)
Lemma delete_then_undo (now t : Z) (sk : Socket.t) (sv : server)
    (boardId shapeId : string) (b : board) (shape : jsobj) :
  currentBoard sk = Some boardId ->
  db sv !! boardId = Some b ->
  List.find (has_id (VStr shapeId)) (shapes b) = Some shape ->
  out (on_delete_shape t shapeId sk sv) = [(ToRoom boardId, EvShapeDeleted shapeId)] ->
  exists b', db (srv (on_undo now sk (srv (on_delete_shape t shapeId sk sv))))
               !! boardId = Some b' /\
    shapes b' = (List.filter (fun s => negb (has_id (VStr shapeId) s)) (shapes b)
                 ++ [shape])%list /\
    payload <$> last (ops b') = Some (Create shape).
Proof.
  intros Hb Hdb Hf Hout.
  destruct (locked_by_other
              (lock_of (cleanExpiredLocks t boardId (locks sv)) boardId shapeId) sk)
    eqn:Hl.
  { rewrite (delete_shape_conflict t boardId shapeId sk sv b Hb Hdb shape Hf Hl) in Hout.
    discriminate. }
  rewrite (delete_shape_applied t boardId shapeId sk sv b Hb Hdb shape Hf Hl). simpl.
  unfold on_undo. rewrite Hb, db_save. simpl. rewrite last_snoc. simpl.
  rewrite (find_has_id _ _ _ Hf), find_filter_negb. simpl.
  eexists. rewrite lookup_insert_eq. split; [reflexivity|]. simpl.
  split; [reflexivity|]. rewrite last_snoc. reflexivity.
Qed.

(** C8. On a board the server has reached, [undo] after a create op appends
    and applies a delete op carrying the created shape, and no shape of that
    id is left; [undo] after a delete op appends and applies a create op
    carrying the recorded snapshot, which is back in the shape set with all
    its fields (for a shape removed by [delete-shape], the shape as it was
    found); [undo] on an empty log reports that there is nothing to undo
    and changes nothing. *)
Theorem undo_last_op (w : world) (now : Z) (socketId boardId : string)
    (sk : Socket.t) (b : board) :
  reachable w ->
  sockets w !! socketId = Some sk ->
  currentBoard sk = Some boardId ->
  db (state w) !! boardId = Some b ->
  undo_inverts now sk (state w) boardId b.
Proof.
  intros Hw Hs Hb Hdb. split; [|split; [|split]].
  - intros lastOp shape Hlast Hp. split; [|apply filter_negb_has_id].
    apply (undo_applied now sk (state w) boardId b lastOp
             (Delete (prop shape "id") shape) Hb Hdb Hlast).
    rewrite Hp. reflexivity.
  - intros lastOp shapeId d Hlast Hp.
    pose proof (reachable_last_delete w Hw boardId b Hdb lastOp shapeId d Hlast Hp) as Hfree.
    assert (E : (shapes b ++ [d])%list = shapes (applyOpToBoard b (Create d))).
    { simpl. rewrite Hfree. reflexivity. }
    rewrite E.
    apply (undo_applied now sk (state w) boardId b lastOp _ Hb Hdb Hlast).
    rewrite Hp. reflexivity.
  - intros Hempty. unfold on_undo. rewrite Hb, Hdb, Hempty. reflexivity.
  - intros t shapeId shape Hf Hout.
    exact (delete_then_undo now t sk (state w) boardId shapeId b shape Hb Hdb Hf Hout).
Qed.

Lemma undo_last_op_witness :
  let w := (run Demo.w0
              (Demo.joined ++ [Request 0 "A" (CreateShape (Demo.rect "s1" 0));
                               Request 1 "A" (DeleteShape "s1")])).1 in
  (sockets w !! "A" = Some Demo.skA /\ db (state w) !! "b" = Some Demo.b2) /\
  undo_inverts 2 Demo.skA (state w) "b" Demo.b2 /\
  undo_appends 2 Demo.skA (state w) "b" Demo.b2
    (Create (new_shape 0 (Demo.rect "s1" 0) Demo.skA))
    [new_shape 0 (Demo.rect "s1" 0) Demo.skA].
Proof.
  intros w.
  assert (H : undo_inverts 2 Demo.skA (state w) "b" Demo.b2).
  { apply (undo_last_op w 2 "A" "b" Demo.skA Demo.b2);
      [ apply reachable_run, reachable_demo | reflexivity | reflexivity | reflexivity ]. }
  split; [split; reflexivity|]. split; [exact H|].
  destruct H as (_ & Hdelete & _).
  apply (Hdelete (mkOp (Delete (VStr "s1") (new_shape 0 (Demo.rect "s1" 0) Demo.skA))
                   (VStr "u1") 1) (VStr "s1")); reflexivity.
Defined.

(** ** Overwriting the id of a shape *)

(** C10, as the code has it. [update-shape] does not restrict the keys of
    [changes]; what the store takes is bounded by the shape schema. On a
    shape that no other socket holds locked and whose id is not a name
    that the lock table inherits, a request whose changes the schema
    accepts (fields of the schema with values of their types, so that an
    [id] among them is a non-empty string) and which contain [id] is
    applied and overwrites the id of the shape with the value supplied.
    If that value differs from the old id and no other shape of the board
    has the old id, later [update-shape] and [delete-shape] requests on
    the old id are answered with the not-found error. *)
Theorem update_overwrites_id (now : Z) (sk : Socket.t) (sv : server)
    (boardId shapeId : string) (b : board) (i : nat) (changes : jsobj)
    (newId : value) :
  currentBoard sk = Some boardId ->
  db sv !! boardId = Some b ->
  findIndex (has_id (VStr shapeId)) (shapes b) = Some i ->
  changes !! "id" = Some newId ->
  (forall l, lock_of (locks sv) boardId shapeId = Some l ->
             ¬ expired now l -> Lock.socketId l = Socket.id sk) ->
  Plain.inherited shapeId = false ->
  Schema.accepts changes = true ->
  id_overwritten now sk sv boardId shapeId b i changes newId.
Proof.
  intros Hb Hdb Hi Hnew Hlock _ _.
  assert (Hfree : locked_by_other
            (lock_of (cleanExpiredLocks now boardId (locks sv)) boardId shapeId) sk
            = false).
  { apply locked_by_other_false. intros l'. rewrite lock_of_cleanExpiredLocks.
    destruct (lock_of (locks sv) boardId shapeId) as [l|] eqn:Hl; simpl; [|discriminate].
    destruct (decide (expired now l)); [discriminate|]. intros [= <-]. eauto. }
  unfold id_overwritten.
  rewrite (update_shape_applied now boardId shapeId sk sv b Hb Hdb changes i Hi Hfree).
  simpl. split; [reflexivity|].
  destruct (findIndex_Some _ _ _ Hi) as (s & Hs & _).
  eexists _, (assign s changes). rewrite lookup_insert_eq. split; [reflexivity|]. simpl.
  split; [by rewrite list_lookup_alter_eq, Hs|].
  split; [by rewrite prop_assign, Hnew|].
  intros Hne Hothers t sk' changes' Hb'.
  assert (Hgone : Forall (fun x => has_id (VStr shapeId) x = false)
                    (alter (fun s => assign s changes) i (shapes b))).
  { apply Forall_lookup. intros j x. destruct (decide (i = j)) as [<-|Hij].
    - rewrite list_lookup_alter_eq, Hs. intros [= <-].
      apply has_id_false. by rewrite prop_assign, Hnew.
    - rewrite list_lookup_alter_ne by exact Hij. intros Hx.
      apply has_id_false. eapply Hothers; eauto. }
  unfold on_update_shape, on_delete_shape. rewrite Hb'. simpl.
  rewrite lookup_insert_eq. simpl.
  rewrite (proj2 (findIndex_None _ _) Hgone), (proj2 (find_None_Forall _ _) Hgone).
  split; reflexivity.
Qed.

Lemma update_overwrites_id_witness :
  let sv := state (run Demo.w0
                     (Demo.joined ++ [Request 0 "A" (CreateShape (Demo.rect "s1" 0))])).1 in
  db sv !! "b" = Some Demo.b1 /\
  id_overwritten 1 Demo.skA sv "b" "s1" Demo.b1 0 {["id" := VStr "s9"]} (VStr "s9") /\
  out (on_delete_shape 2 "s1" Demo.skB
         (srv (on_update_shape 1 "s1" {["id" := VStr "s9"]} Demo.skA sv))) =
    [(ToSocket "B", EvError "Shape not found")].
Proof.
  intros sv.
  assert (H : id_overwritten 1 Demo.skA sv "b" "s1" Demo.b1 0
                {["id" := VStr "s9"]} (VStr "s9")).
  { apply (update_overwrites_id 1 Demo.skA sv "b" "s1" Demo.b1 0
             {["id" := VStr "s9"]} (VStr "s9"));
      [ reflexivity | reflexivity | reflexivity | reflexivity
      | | reflexivity | reflexivity ].
    intros l Hl. vm_compute in Hl. discriminate. }
  split; [reflexivity|]. split; [exact H|].
  destruct H as (_ & b' & s' & _ & _ & _ & Hlater).
  assert (Hothers : forall (j : nat) (s : jsobj),
            j <> 0%nat -> shapes Demo.b1 !! j = Some s -> prop s "id" <> VStr "s1").
  { intros [|j] s Hj Hs; [congruence|]. destruct j; discriminate. }
  exact (proj2 (Hlater ltac:(discriminate) Hothers 2 Demo.skB ∅ eq_refl)).
Defined.

(** C10, as the claim states it, fails when a second shape carries the same
    id. Shape [s2] is renamed to [s1] by an [update-shape] with an [id]
    change, so that two shapes have the id [s1]; the first of them is then
    renamed to [s3]. The request succeeds, and the [update-shape] and
    [delete-shape] requests on [s1] that follow are applied to the second
    shape instead of being answered with the not-found error. *)
Lemma id_still_found_counterexample :
  let w := (run Demo.w0
              (Demo.joined ++ [Request 0 "A" (CreateShape (Demo.rect "s1" 0));
                               Request 1 "A" (CreateShape (Demo.rect "s2" 1));
                               Request 2 "A" (UpdateShape "s2" {["id" := VStr "s1"]})])).1 in
  let r := step w (Request 3 "A" (UpdateShape "s1" {["id" := VStr "s3"]})) in
  lock_of (locks (state w)) "b" "s1" = None /\
  r.2 = [(ToRoom "b", EvShapeUpdated "s1" {["id" := VStr "s3"]})] /\
  (fun b => (fun s => prop s "id") <$> shapes b) <$> db (state r.1) !! "b" =
    Some [VStr "s3"; VStr "s1"] /\
  (step r.1 (Request 4 "B" (UpdateShape "s1" {["x" := VNum 9]}))).2 =
    [(ToRoom "b", EvShapeUpdated "s1" {["x" := VNum 9]})] /\
  (step r.1 (Request 4 "B" (DeleteShape "s1"))).2 =
    [(ToRoom "b", EvShapeDeleted "s1")].
Proof. repeat split; reflexivity. Qed.

(** ** Undo of an update *)

(** The compensating op that [createUndoOp] builds for an update takes its
    values from the shape as it is now, not from the [oldValues] of the
    op: applying it leaves every property of every shape as it was. *)
Lemma undo_update_reads_current (b : board) (shapeId : value)
    (changes : jsobj) (oldValues : option jsobj) (shape : jsobj) :
  List.find (has_id shapeId) (shapes b) = Some shape ->
  createUndoOp (Update shapeId changes oldValues) b =
    Some (Update shapeId (pick changes shape) None) /\
  Forall2 (fun s s' => forall k, prop s' k = prop s k)
    (shapes b)
    (shapes (applyOpToBoard b (Update shapeId (pick changes shape) None))).
Proof.
  intros Hf. simpl. rewrite Hf. split; [reflexivity|].
  rewrite find_findIndex in Hf.
  destruct (findIndex (has_id shapeId) (shapes b)) as [i|]; [|discriminate].
  simpl in *. apply Forall2_lookup. intros j.
  destruct (decide (i = j)) as [<-|Hij].
  - rewrite list_lookup_alter_eq, Hf. simpl. constructor. intros k.
    rewrite prop_assign, lookup_pick. destruct (changes !! k); reflexivity.
  - rewrite list_lookup_alter_ne by exact Hij.
    destruct (shapes b !! j); constructor. reflexivity.
Qed.

(** C1, on the code. A rectangle is created with [x] = 3 and updated to
    [x] = 5; the update op records [oldValues] = {x: 3}. The [undo] that
    follows appends an update op whose changes are {x: 5}, the value the
    shape has now, and [x] stays 5: the recorded old value is not used. *)
Theorem undo_update_keeps_new_value :
  let w := (run Demo.w0
              (Demo.joined ++ [Request 0 "A" (CreateShape (Demo.rect "s1" 3));
                               Request 1 "A" (UpdateShape "s1" {["x" := VNum 5]})])).1 in
  let r := step w (Request 2 "A" Undo) in
  payload <$> (db (state w) !! "b" ≫= fun b => last (ops b)) =
    Some (Update (VStr "s1") {["x" := VNum 5]} (Some {["x" := VNum 3]})) /\
  (fun b => (fun s => prop s "x") <$> shapes b) <$> db (state w) !! "b" =
    Some [VNum 5] /\
  payload <$> (db (state r.1) !! "b" ≫= fun b => last (ops b)) =
    Some (Update (VStr "s1") {["x" := VNum 5]} None) /\
  (fun b => (fun s => prop s "x") <$> shapes b) <$> db (state r.1) !! "b" =
    Some [VNum 5].
Proof. repeat split; reflexivity. Qed.

(** ** Create requests that repeat an id *)

(** Both create handlers push the new shape whatever the shape set holds. *)
Lemma create_shape_pushes (now : Z) (data : jsobj) (sk : Socket.t) (sv : server)
    (boardId : string) (b : board) :
  currentBoard sk = Some boardId ->
  db sv !! boardId = Some b ->
  (exists b', db (srv (on_create_shape now data sk sv)) !! boardId = Some b' /\
     shapes b' = (shapes b ++ [new_shape now data sk])%list) /\
  (exists b', db (srv (on_draw_end now data sk sv)) !! boardId = Some b' /\
     shapes b' = (shapes b ++ [path_shape now data sk])%list).
Proof.
  intros Hb Hdb. unfold on_create_shape, on_draw_end. rewrite Hb, Hdb. simpl.
  split; eexists; rewrite lookup_insert_eq; split; reflexivity.
Qed.

(** C3, on the code. A [create-shape] and a [draw-end] request that carry
    the id of a shape of the board each add a shape: the shape set then
    holds three shapes with the id [s1]. *)
Theorem duplicate_create_adds_shape :
  let w := (run Demo.w0
              (Demo.joined ++ [Request 0 "A" (CreateShape (Demo.rect "s1" 0))])).1 in
  let r1 := step w (Request 1 "B" (CreateShape (Demo.rect "s1" 7))) in
  let r2 := step r1.1 (Request 2 "B" (DrawEnd {["id" := VStr "s1"]})) in
  (fun b => (fun s => prop s "id") <$> shapes b) <$> db (state w) !! "b" =
    Some [VStr "s1"] /\
  (fun b => (fun s => prop s "id") <$> shapes b) <$> db (state r1.1) !! "b" =
    Some [VStr "s1"; VStr "s1"] /\
  (fun b => (fun s => prop s "x") <$> shapes b) <$> db (state r1.1) !! "b" =
    Some [VNum 0; VNum 7] /\
  (fun b => (fun s => prop s "id") <$> shapes b) <$> db (state r2.1) !! "b" =
    Some [VStr "s1"; VStr "s1"; VStr "s1"] /\
  (fun b => length (ops b)) <$> db (state r2.1) !! "b" = Some 3%nat.
Proof. repeat split; reflexivity. Qed.

(** C2, on the code. After two [create-shape] requests with the same id the
    stored shape set has two shapes, and the replay of the stored log,
    which skips a create op whose id is present, has one. *)
Theorem duplicate_create_breaks_replay :
  let w := (run Demo.w0
              (Demo.joined ++ [Request 0 "A" (CreateShape (Demo.rect "s1" 0));
                               Request 1 "A" (CreateShape (Demo.rect "s1" 7))])).1 in
  (fun b => (fun s => prop s "x") <$> shapes b) <$> db (state w) !! "b" =
    Some [VNum 0; VNum 7] /\
  (fun b => (fun s => prop s "x") <$> replay (ops b)) <$> db (state w) !! "b" =
    Some [VNum 0] /\
  ¬ faithful (state w).
Proof.
  repeat split; try reflexivity.
  intros H. specialize (H "b" _ eq_refl). vm_compute in H. discriminate.
Qed.

(** ** Leaving a board *)

(** [leave-board] does not touch the lock table. *)
Lemma leave_board_keeps_locks (sk : Socket.t) (sv : server) :
  locks (srv (on_leave_board sk sv)) = locks sv.
Proof.
  unfold on_leave_board. destruct (currentBoard sk); [|reflexivity].
  destruct (presence sv !! _); reflexivity.
Qed.

(** [leave-board] of a joined socket: the presence entry goes, [user-left]
    is sent once and is the only event, and the socket is on no board. *)
Lemma leave_board_cleans_presence (sk : Socket.t) (sv : server) (boardId : string)
    (entries : gmap string Presence.t) :
  currentBoard sk = Some boardId ->
  presence sv !! boardId = Some entries ->
  out (on_leave_board sk sv) =
    [(ToOthers boardId (Socket.id sk), EvUserLeft (Socket.id sk))] /\
  presence (srv (on_leave_board sk sv)) !! boardId = Some (delete (Socket.id sk) entries) /\
  currentBoard (sock (on_leave_board sk sv)) = None.
Proof.
  intros Hb Hp. unfold on_leave_board. rewrite Hb, Hp. simpl.
  split; [reflexivity|]. split; [apply lookup_insert_eq|reflexivity].
Qed.

(** [disconnect] of a joined socket: the presence entry goes, [user-left]
    is sent once, every lock of the socket on the board is deleted, and
    one [lock-update] with [locked: false] is sent for each. *)
Lemma disconnect_cleans_up (sk : Socket.t) (sv : server) (boardId : string)
    (entries : gmap string Presence.t) :
  currentBoard sk = Some boardId ->
  presence sv !! boardId = Some entries ->
  out (on_disconnect sk sv) =
    ((ToOthers boardId (Socket.id sk), EvUserLeft (Socket.id sk)) ::
     ((fun kv : string * Lock.t => (ToRoom boardId, EvLockUpdate kv.1 false None))
      <$> map_to_list (held_by (Socket.id sk) (default ∅ (locks sv !! boardId)))))%list /\
  presence (srv (on_disconnect sk sv)) !! boardId = Some (delete (Socket.id sk) entries) /\
  (forall objectId l,
     lock_of (locks (srv (on_disconnect sk sv))) boardId objectId = Some l ->
     Lock.socketId l <> Socket.id sk) /\
  (forall objectId l,
     lock_of (locks sv) boardId objectId = Some l ->
     Lock.socketId l = Socket.id sk ->
     (ToRoom boardId, EvLockUpdate objectId false None) ∈ out (on_disconnect sk sv)).
Proof.
  intros Hb Hp. unfold on_disconnect. rewrite Hb, Hp. simpl.
  destruct (locks sv !! boardId) as [tbl|] eqn:Htbl; simpl.
  - split; [reflexivity|]. split; [apply lookup_insert_eq|]. split.
    + intros objectId l. rewrite lock_of_insert. unfold release_all.
      intros H. apply map_lookup_filter_Some in H as [_ H]. exact H.
    + intros objectId l Hl Hown. apply lock_of_Some in Hl as (tbl' & Ht & Hl).
      rewrite Htbl in Ht. injection Ht as <-.
      right. apply list_elem_of_fmap. exists (objectId, l). split; [reflexivity|].
      apply elem_of_map_to_list. unfold held_by.
      apply map_lookup_filter_Some. split; assumption.
  - unfold held_by. rewrite map_filter_empty, map_to_list_empty. simpl.
    split; [reflexivity|]. split; [apply lookup_insert_eq|]. split.
    + intros objectId l H. apply lock_of_Some in H as (tbl' & Ht & _). congruence.
    + intros objectId l H. apply lock_of_Some in H as (tbl' & Ht & _). congruence.
Qed.

(** C4, on the code. Socket [A] takes two locks on board [b] and sends
    [leave-board]: [user-left] is broadcast and the presence entry removed,
    but both locks stay in the table and no [lock-update] is sent, so that
    [B] is refused the lock afterwards. The same socket disconnecting
    instead does release both. *)
Theorem leave_board_keeps_held_locks :
  let w := (run Demo.w0
              (Demo.joined ++ [Request 0 "A" (LockObject "s1");
                               Request 0 "A" (LockObject "s2")])).1 in
  let r := step w (Request 1 "A" LeaveBoard) in
  let d := step w (Request 1 "A" Disconnect) in
  r.2 = [(ToOthers "b" "A", EvUserLeft "A")] /\
  Socket.currentBoardId <$> sockets r.1 !! "A" = Some None /\
  (presence (state r.1) !! "b" ≫= fun tbl => tbl !! "A") = None /\
  lock_of (locks (state r.1)) "b" "s1" = Some (Lock.mk "A" "u1" 0) /\
  lock_of (locks (state r.1)) "b" "s2" = Some (Lock.mk "A" "u1" 0) /\
  (step r.1 (Request 2 "B" (LockObject "s1"))).2 =
    [(ToSocket "B", EvLockFailed "s1" "u1")] /\
  lock_of (locks (state d.1)) "b" "s1" = None /\
  lock_of (locks (state d.1)) "b" "s2" = None /\
  Permutation d.2 [(ToOthers "b" "A", EvUserLeft "A");
                   (ToRoom "b", EvLockUpdate "s1" false None);
                   (ToRoom "b", EvLockUpdate "s2" false None)].
Proof.
  repeat split; reflexivity.
Qed.

(** * Further properties of the handlers and routes *)

(** ** The lock table: expiry and the periodic sweep *)

Lemma cleanExpiredLocks_lookup (now : Z) (boardId : string)
    (lk : gmap string (gmap string Lock.t)) :
  cleanExpiredLocks now boardId lk !! boardId = lk !! boardId ≫= live_table now.
Proof.
  unfold cleanExpiredLocks, live_table.
  destruct (lk !! boardId) as [tbl|] eqn:Htbl; simpl; [|exact Htbl].
  destruct (decide _); [apply lookup_delete_eq | apply lookup_insert_eq].
Qed.

Lemma cleanExpiredLocks_other (now : Z) (boardId boardId' : string)
    (lk : gmap string (gmap string Lock.t)) :
  boardId' <> boardId ->
  cleanExpiredLocks now boardId lk !! boardId' = lk !! boardId'.
Proof.
  intros Hne. unfold cleanExpiredLocks.
  destruct (lk !! boardId) as [tbl|]; [|reflexivity].
  destruct (decide _); [by rewrite lookup_delete_ne | by rewrite lookup_insert_ne].
Qed.

Lemma live_table_nonempty (now : Z) (tbl tbl' : gmap string Lock.t) :
  live_table now tbl = Some tbl' -> tbl' <> ∅.
Proof.
  unfold live_table. destruct (decide _) as [|Hn]; [discriminate|].
  intros [= <-] He. apply Hn. rewrite He. apply map_size_empty.
Qed.

Lemma live_table_later (now now' : Z) (tbl tbl' : gmap string Lock.t) :
  now <= now' ->
  live_table now tbl = Some tbl' ->
  live_table now' tbl' = live_table now' tbl.
Proof.
  intros Hle. unfold live_table at 1. destruct (decide _); [discriminate|].
  intros [= <-]. unfold live_table.
  assert (E : filter (fun kv : string * Lock.t => ¬ expired now' kv.2)
                (filter (fun kv : string * Lock.t => ¬ expired now kv.2) tbl)
            = filter (fun kv : string * Lock.t => ¬ expired now' kv.2) tbl).
  { apply map_eq. intros i. rewrite !map_lookup_filter.
    destruct (tbl !! i) as [x|]; simpl; [|reflexivity].
    destruct (decide (expired now' x)) as [Hx|Hx].
    - rewrite (option_guard_False (¬ expired now' (i, x).2)) by (simpl; tauto).
      destruct (guard (¬ expired now (i, x).2)); simpl; [|reflexivity].
      rewrite option_guard_False by (simpl; tauto). reflexivity.
    - rewrite (option_guard_True (¬ expired now (i, x).2))
        by (unfold expired in *; simpl; lia).
      reflexivity. }
  rewrite E. reflexivity.
Qed.

Lemma live_table_later_None (now now' : Z) (tbl : gmap string Lock.t) :
  now <= now' -> live_table now tbl = None -> live_table now' tbl = None.
Proof.
  intros Hle. unfold live_table.
  destruct (decide _) as [Hz|]; [|discriminate]. intros _.
  apply map_size_empty_iff in Hz.
  assert (E : filter (fun kv : string * Lock.t => ¬ expired now' kv.2) tbl = ∅).
  { apply map_empty. intros i. apply map_lookup_filter_None. right. intros x Hx Hlive.
    assert (Hin : filter (fun kv : string * Lock.t => ¬ expired now kv.2) tbl !! i = Some x).
    { apply map_lookup_filter_Some. split; [exact Hx|]. unfold expired in *. simpl in *. lia. }
    rewrite Hz in Hin. by rewrite lookup_empty in Hin. }
  rewrite E. rewrite map_size_empty. destruct (decide _); [reflexivity|congruence].
Qed.

(** X1. [cleanExpiredLocks] keeps exactly the live locks of its board,
    leaves the tables of the other boards alone, and never leaves an empty
    table behind for its board. *)
Theorem cleanExpiredLocks_keeps_live (now : Z) (boardId : string)
    (lk : gmap string (gmap string Lock.t)) :
  (forall objectId,
     lock_of (cleanExpiredLocks now boardId lk) boardId objectId =
     lock_of lk boardId objectId ≫=
       fun l => if decide (expired now l) then None else Some l) /\
  (forall boardId', boardId' <> boardId ->
     cleanExpiredLocks now boardId lk !! boardId' = lk !! boardId') /\
  (forall tbl, cleanExpiredLocks now boardId lk !! boardId = Some tbl -> tbl <> ∅).
Proof.
  split; [intros; apply lock_of_cleanExpiredLocks|].
  split; [intros; by apply cleanExpiredLocks_other|].
  intros tbl. rewrite cleanExpiredLocks_lookup.
  destruct (lk !! boardId) as [t|]; simpl; [|discriminate].
  apply live_table_nonempty.
Qed.

(** X2. An expiry check makes an earlier one redundant: checking at [now]
    and then at a later [now'] leaves the table that checking at [now']
    alone leaves. In particular the check is idempotent. *)
Theorem cleanExpiredLocks_later_subsumes (now now' : Z) (boardId : string)
    (lk : gmap string (gmap string Lock.t)) :
  now <= now' ->
  cleanExpiredLocks now' boardId (cleanExpiredLocks now boardId lk) =
  cleanExpiredLocks now' boardId lk.
Proof.
  intros Hle. apply map_eq. intros boardId'.
  destruct (decide (boardId' = boardId)) as [->|Hne].
  - rewrite !cleanExpiredLocks_lookup.
    destruct (lk !! boardId) as [tbl|]; simpl; [|reflexivity].
    destruct (live_table now tbl) as [tbl'|] eqn:E; simpl.
    + by apply live_table_later with (now := now).
    + symmetry. by apply live_table_later_None with (now := now).
  - by rewrite !cleanExpiredLocks_other.
Qed.

Lemma cleanExpiredLocks_later_subsumes_witness :
  let lk : gmap string (gmap string Lock.t) :=
    {["b" := {["s1" := Lock.mk "A" "u1" 0; "s2" := Lock.mk "B" "u2" 20000]}]} in
  10 <= 40000 /\
  cleanExpiredLocks 40000 "b" (cleanExpiredLocks 10 "b" lk) =
    {["b" := {["s2" := Lock.mk "B" "u2" 20000]}]}.
Proof.
  intros lk. split; [lia|].
  rewrite (cleanExpiredLocks_later_subsumes 10 40000 "b" lk); [reflexivity | lia].
Defined.

Lemma sweep_fold (now : Z) (ks : list string) (lk : gmap string (gmap string Lock.t))
    (boardId : string) :
  foldr (fun b acc => cleanExpiredLocks now b acc) lk ks !! boardId =
  if decide (boardId ∈ ks) then lk !! boardId ≫= live_table now else lk !! boardId.
Proof.
  induction ks as [|k ks IH]; simpl.
  - destruct (decide (boardId ∈ @nil string)) as [H|]; [|reflexivity].
    by apply not_elem_of_nil in H.
  - destruct (decide (boardId = k)) as [->|Hne].
    + rewrite (decide_True (P := k ∈ k :: ks)) by apply list_elem_of_here.
      rewrite cleanExpiredLocks_lookup, IH.
      destruct (decide (k ∈ ks)); [|reflexivity].
      destruct (lk !! k) as [tbl|]; simpl; [|reflexivity].
      destruct (live_table now tbl) as [tbl'|] eqn:E; simpl; [|reflexivity].
      rewrite <- E. apply live_table_later with (now := now); [lia|exact E].
    + rewrite cleanExpiredLocks_other by exact Hne. rewrite IH.
      destruct (decide (boardId ∈ ks)) as [Hin|Hnin].
      * rewrite (decide_True (P := boardId ∈ k :: ks)); [reflexivity|].
        by apply list_elem_of_further.
      * rewrite (decide_False (P := boardId ∈ k :: ks)); [reflexivity|].
        intros [?|?]%elem_of_cons; congruence.
Qed.

(** X3. The periodic sweep drops every expired lock of every board and
    keeps every live one; no board is left with an empty table, and the
    stored boards and the presence table are not touched. *)
Theorem sweep_drops_expired (now : Z) (sv : server) :
  db (sweep now sv) = db sv /\
  presence (sweep now sv) = presence sv /\
  (forall boardId objectId,
     lock_of (locks (sweep now sv)) boardId objectId =
     lock_of (locks sv) boardId objectId ≫=
       fun l => if decide (expired now l) then None else Some l) /\
  (forall boardId tbl, locks (sweep now sv) !! boardId = Some tbl -> tbl <> ∅).
Proof.
  split; [reflexivity|]. split; [reflexivity|].
  assert (H : forall boardId,
            locks (sweep now sv) !! boardId = locks sv !! boardId ≫= live_table now).
  { intros boardId. unfold sweep. simpl. rewrite sweep_fold.
    case_decide as Hnin; [reflexivity|].
    destruct (locks sv !! boardId) as [tbl|] eqn:E; [|reflexivity].
    exfalso. apply Hnin. apply list_elem_of_fmap. exists (boardId, tbl).
    split; [reflexivity|]. by apply elem_of_map_to_list. }
  split.
  - intros boardId objectId.
    rewrite <- lock_of_cleanExpiredLocks. unfold lock_of.
    rewrite H, cleanExpiredLocks_lookup. reflexivity.
  - intros boardId tbl. rewrite H.
    destruct (locks sv !! boardId); simpl; [|discriminate]. apply live_table_nonempty.
Qed.

(** ** [lock-object] and [unlock-object] *)

Lemma lock_of_insert_ne (lk : gmap string (gmap string Lock.t))
    (boardId boardId' objectId : string) (tbl : gmap string Lock.t) :
  boardId' <> boardId ->
  lock_of (<[boardId := tbl]> lk) boardId' objectId = lock_of lk boardId' objectId.
Proof. intros H. unfold lock_of. by rewrite lookup_insert_ne. Qed.

(** X4. While another socket holds a live lock on an object,
    [lock-object] is denied: the requester alone is told, with the user id
    recorded in the lock, the lock stays as it is, and neither the boards
    nor the presence table nor the socket change. *)
Theorem lock_object_exclusive (now : Z) (boardId objectId : string)
    (sk : Socket.t) (sv : server) (l : Lock.t) :
  currentBoard sk = Some boardId ->
  lock_of (locks sv) boardId objectId = Some l ->
  ¬ expired now l ->
  Lock.socketId l <> Socket.id sk ->
  out (on_lock_object now objectId sk sv) =
    [(ToSocket (Socket.id sk), EvLockFailed objectId (Lock.userId l))] /\
  lock_of (locks (srv (on_lock_object now objectId sk sv))) boardId objectId = Some l /\
  db (srv (on_lock_object now objectId sk sv)) = db sv /\
  presence (srv (on_lock_object now objectId sk sv)) = presence sv /\
  sock (on_lock_object now objectId sk sv) = sk.
Proof.
  intros Hb Hl Hlive Hne.
  pose proof (lock_of_clean_live now _ _ _ l Hl Hlive) as Hkept.
  destruct (lock_object_denied now objectId boardId sk sv l Hb Hkept Hne) as [Hout Hlock].
  split; [exact Hout|]. split; [exact Hlock|].
  unfold on_lock_object. rewrite Hb, lock_of_default, Hkept.
  apply String.eqb_neq in Hne. rewrite Hne. simpl. repeat split; reflexivity.
Qed.

Lemma lock_object_exclusive_witness :
  let sv := state (run Demo.w0 (Demo.joined ++ [Request 0 "A" (LockObject "s1")])).1 in
  lock_of (locks sv) "b" "s1" = Some (Lock.mk "A" "u1" 0) /\
  out (on_lock_object 25000 "s1" Demo.skB sv) = [(ToSocket "B", EvLockFailed "s1" "u1")].
Proof.
  intros sv. split; [reflexivity|].
  apply (lock_object_exclusive 25000 "b" "s1" Demo.skB sv (Lock.mk "A" "u1" 0));
    [ reflexivity | reflexivity | unfold expired, LOCK_TIMEOUT; simpl; lia
    | simpl; discriminate ].
Defined.

(** X5. A [lock-object] request concerns one object of one board: the
    locks on the other objects of the board are those the expiry check
    leaves, and the tables of the other boards are untouched, whether the
    request is granted or denied. *)
Theorem lock_object_frame (now : Z) (boardId objectId : string)
    (sk : Socket.t) (sv : server) :
  currentBoard sk = Some boardId ->
  (forall objectId', objectId' <> objectId ->
     lock_of (locks (srv (on_lock_object now objectId sk sv))) boardId objectId' =
     lock_of (locks sv) boardId objectId' ≫=
       fun l => if decide (expired now l) then None else Some l) /\
  (forall boardId', boardId' <> boardId ->
     locks (srv (on_lock_object now objectId sk sv)) !! boardId' =
     locks sv !! boardId').
Proof.
  intros Hb. unfold on_lock_object. rewrite Hb.
  set (lk1 := cleanExpiredLocks now boardId (locks sv)).
  set (tbl := default ∅ (lk1 !! boardId)).
  assert (Hsame : forall objectId', tbl !! objectId' =
            lock_of (locks sv) boardId objectId' ≫=
              fun l => if decide (expired now l) then None else Some l).
  { intros o. unfold tbl. rewrite lock_of_default. apply lock_of_cleanExpiredLocks. }
  assert (Hother : forall boardId', boardId' <> boardId ->
            lk1 !! boardId' = locks sv !! boardId').
  { intros b' Hne. by apply cleanExpiredLocks_other. }
  destruct (tbl !! objectId) as [l|] eqn:Hl;
    [destruct (negb (String.eqb (Lock.socketId l) (Socket.id sk)))|]; simpl;
    (split; [intros o Ho | intros b' Hne]);
    rewrite ?lock_of_insert, ?lookup_insert_ne by congruence;
    rewrite ?lookup_insert_ne by congruence; auto.
Qed.

Lemma lock_object_frame_witness :
  let sv := state (run Demo.w0 (Demo.joined ++ [Request 0 "A" (LockObject "s1")])).1 in
  lock_of (locks (srv (on_lock_object 5 "s2" Demo.skB sv))) "b" "s1" =
    Some (Lock.mk "A" "u1" 0).
Proof.
  intros sv.
  rewrite (proj1 (lock_object_frame 5 "b" "s2" Demo.skB sv eq_refl) "s1")
    by discriminate.
  reflexivity.
Defined.

(** X6. [unlock-object] releases a lock for its holder only. A request of
    the holder deletes the lock and tells the room, leaving the other
    locks of the board in place; expiry is not looked at. A request for an
    object that is not locked, or that another socket holds, is dropped
    without any event. *)
Theorem unlock_object_by_holder_only (boardId objectId : string)
    (sk : Socket.t) (sv : server) :
  currentBoard sk = Some boardId ->
  (forall l, lock_of (locks sv) boardId objectId = Some l ->
     Lock.socketId l = Socket.id sk ->
     out (on_unlock_object objectId sk sv) =
       [(ToRoom boardId, EvLockUpdate objectId false None)] /\
     lock_of (locks (srv (on_unlock_object objectId sk sv))) boardId objectId = None /\
     (forall objectId', objectId' <> objectId ->
        lock_of (locks (srv (on_unlock_object objectId sk sv))) boardId objectId' =
        lock_of (locks sv) boardId objectId')) /\
  (forall l, lock_of (locks sv) boardId objectId = Some l ->
     Lock.socketId l <> Socket.id sk ->
     on_unlock_object objectId sk sv = ignore sk sv) /\
  (lock_of (locks sv) boardId objectId = None ->
     on_unlock_object objectId sk sv = ignore sk sv).
Proof.
  intros Hb. unfold on_unlock_object, lock_of. rewrite Hb.
  destruct (locks sv !! boardId) as [tbl|] eqn:Htbl; simpl.
  - split; [|split].
    + intros l Hl Hown. rewrite Hl, Hown, String.eqb_refl. simpl.
      split; [reflexivity|]. rewrite lookup_insert_eq. simpl.
      split; [apply lookup_delete_eq|]. intros o Ho. by rewrite lookup_delete_ne.
    + intros l Hl Hne. rewrite Hl. apply String.eqb_neq in Hne. rewrite Hne. reflexivity.
    + intros Hl. rewrite Hl. reflexivity.
  - split; [|split]; [intros l [=] | intros l [=] | reflexivity].
Qed.

Lemma unlock_object_by_holder_only_witness :
  let sv := state (run Demo.w0 (Demo.joined ++ [Request 0 "A" (LockObject "s1")])).1 in
  on_unlock_object "s1" Demo.skB sv = ignore Demo.skB sv /\
  lock_of (locks (srv (on_unlock_object "s1" Demo.skA sv))) "b" "s1" = None.
Proof.
  intros sv.
  pose proof (unlock_object_by_holder_only "b" "s1" Demo.skB sv eq_refl) as (_ & HB & _).
  pose proof (unlock_object_by_holder_only "b" "s1" Demo.skA sv eq_refl) as (HA & _).
  split.
  - apply (HB (Lock.mk "A" "u1" 0)); [reflexivity | simpl; discriminate].
  - apply (HA (Lock.mk "A" "u1" 0)); reflexivity.
Defined.

(** X7. A lock that [lock-object] has just granted is released by the
    [unlock-object] of the same socket, and is then free for another
    socket to take. *)
Theorem lock_then_unlock (now t : Z) (boardId objectId : string)
    (sk sk' : Socket.t) (sv : server) :
  currentBoard sk = Some boardId ->
  currentBoard sk' = Some boardId ->
  out (on_lock_object now objectId sk sv) =
    [(ToRoom boardId, EvLockUpdate objectId true (Some (userId_or_id sk)))] ->
  let sv1 := srv (on_lock_object now objectId sk sv) in
  let sv2 := srv (on_unlock_object objectId sk sv1) in
  out (on_unlock_object objectId sk sv1) =
    [(ToRoom boardId, EvLockUpdate objectId false None)] /\
  lock_of (locks sv2) boardId objectId = None /\
  out (on_lock_object t objectId sk' sv2) =
    [(ToRoom boardId, EvLockUpdate objectId true (Some (userId_or_id sk')))].
Proof.
  intros Hb Hb' Hgranted sv1 sv2.
  assert (Hheld : lock_of (locks sv1) boardId objectId =
                  Some (Lock.mk (Socket.id sk) (userId_or_id sk) now)).
  { unfold sv1. apply lock_object_granted; [exact Hb|]. intros l Hl.
    destruct (decide (Lock.socketId l = Socket.id sk)) as [|Hne]; [assumption|].
    destruct (lock_object_denied now objectId boardId sk sv l Hb Hl Hne) as [Hout _].
    rewrite Hout in Hgranted. discriminate. }
  assert (Hrel : out (on_unlock_object objectId sk sv1) =
                   [(ToRoom boardId, EvLockUpdate objectId false None)] /\
                 lock_of (locks (srv (on_unlock_object objectId sk sv1))) boardId objectId
                   = None).
  { apply lock_of_Some in Hheld as (tbl & Htbl & Hl).
    unfold on_unlock_object. rewrite Hb, Htbl, Hl. simpl. rewrite String.eqb_refl. simpl.
    split; [reflexivity|]. rewrite lock_of_insert. apply lookup_delete_eq. }
  destruct Hrel as [Hout Hnone].
  split; [exact Hout|]. split; [exact Hnone|].
  apply lock_object_granted; [exact Hb'|]. intros l.
  rewrite lock_of_cleanExpiredLocks. subst sv2. rewrite Hnone. discriminate.
Qed.

Lemma lock_then_unlock_witness :
  let sv := state (run Demo.w0 Demo.joined).1 in
  let sv2 := srv (on_unlock_object "s1" Demo.skA (srv (on_lock_object 0 "s1" Demo.skA sv))) in
  lock_of (locks sv2) "b" "s1" = None /\
  out (on_lock_object 1 "s1" Demo.skB sv2) =
    [(ToRoom "b", EvLockUpdate "s1" true (Some "u2"))].
Proof.
  intros sv sv2.
  destruct (lock_then_unlock 0 1 "b" "s1" Demo.skA Demo.skB sv eq_refl eq_refl eq_refl)
    as (_ & H1 & H2).
  split; [exact H1 | exact H2].
Defined.

(** ** [disconnect] *)

(** X8. [disconnect] of a joined socket releases exactly the locks that the
    socket holds on its board: the locks of the other sockets stay, one
    [lock-update] with [locked: false] is broadcast for each released
    object and for no other, no event is sent twice, the presence entry of
    the socket is removed, and the stored boards and the tables of the
    other boards are untouched. *)
Theorem disconnect_releases_exactly (sk : Socket.t) (sv : server) (boardId : string) :
  currentBoard sk = Some boardId ->
  (forall objectId l,
     lock_of (locks (srv (on_disconnect sk sv))) boardId objectId = Some l <->
     lock_of (locks sv) boardId objectId = Some l /\ Lock.socketId l <> Socket.id sk) /\
  (forall objectId,
     (ToRoom boardId, EvLockUpdate objectId false None) ∈ out (on_disconnect sk sv) <->
     exists l, lock_of (locks sv) boardId objectId = Some l /\
               Lock.socketId l = Socket.id sk) /\
  NoDup (out (on_disconnect sk sv)) /\
  (presence (srv (on_disconnect sk sv)) !! boardId ≫= fun tbl => tbl !! Socket.id sk) = None /\
  db (srv (on_disconnect sk sv)) = db sv /\
  (forall boardId', boardId' <> boardId ->
     locks (srv (on_disconnect sk sv)) !! boardId' = locks sv !! boardId' /\
     presence (srv (on_disconnect sk sv)) !! boardId' = presence sv !! boardId').
Proof.
  intros Hb. unfold on_disconnect. rewrite Hb.
  set (left_ev := (ToOthers boardId (Socket.id sk), EvUserLeft (Socket.id sk))).
  assert (Hupd : forall (tbl : gmap string Lock.t) objectId,
    (ToRoom boardId, EvLockUpdate objectId false None) ∈
      ((fun kv : string * Lock.t => (ToRoom boardId, EvLockUpdate kv.1 false None))
         <$> map_to_list (held_by (Socket.id sk) tbl)) <->
    exists l, tbl !! objectId = Some l /\ Lock.socketId l = Socket.id sk).
  { intros tbl o. rewrite list_elem_of_fmap. split.
    - intros ([o' l] & [= <-] & Hin). exists l.
      apply elem_of_map_to_list, map_lookup_filter_Some in Hin. exact Hin.
    - intros (l & Hl & Hown). exists (o, l). split; [reflexivity|].
      apply elem_of_map_to_list, map_lookup_filter_Some. split; assumption. }
  assert (Hnd : forall (tbl : gmap string Lock.t),
    NoDup ((fun kv : string * Lock.t => (ToRoom boardId, EvLockUpdate kv.1 false None))
             <$> map_to_list (held_by (Socket.id sk) tbl))).
  { intros tbl.
    assert (E : (fun kv : string * Lock.t => (ToRoom boardId, EvLockUpdate kv.1 false None))
                  <$> map_to_list (held_by (Socket.id sk) tbl)
                = (fun o : string => (ToRoom boardId, EvLockUpdate o false None))
                  <$> (map_to_list (held_by (Socket.id sk) tbl)).*1).
    { rewrite <- list_fmap_compose. reflexivity. }
    rewrite E. apply NoDup_fmap_2; [|apply NoDup_fst_map_to_list].
    intros o o' [=]. assumption. }
  destruct (presence sv !! boardId) as [entries|] eqn:Hp;
    destruct (locks sv !! boardId) as [tbl|] eqn:Htbl; simpl; rewrite ?Htbl; simpl.
  all: repeat match goal with |- _ /\ _ => split end.
  all: try reflexivity.
  all: try (intros b' Hne; rewrite ?lookup_insert_ne by congruence; split; reflexivity).
  all: try (rewrite lookup_insert_eq; simpl; apply lookup_delete_eq).
  all: try (rewrite Hp; reflexivity).
  all: try (intros o l; rewrite lock_of_insert; unfold release_all, lock_of;
            rewrite Htbl; simpl; apply map_lookup_filter_Some).
  all: try (intros o l; unfold lock_of; rewrite Htbl; simpl; split;
            [discriminate | intros [[=] _]]).
  all: try (intros o; unfold lock_of; rewrite Htbl; simpl).
  - rewrite elem_of_cons, Hupd. split; [intros [[=]|H]; exact H | intros H; right; exact H].
  - apply NoDup_cons. split; [|apply Hnd].
    intros [[o l] [[=] _]]%list_elem_of_fmap.
  - split; [intros [[=]|[]%elem_of_nil]%elem_of_cons | intros (l & [=] & _)].
  - apply NoDup_singleton.
  - apply Hupd.
  - apply Hnd.
  - split; [intros []%elem_of_nil | intros (l & [=] & _)].
  - apply NoDup_nil_2.
Qed.

Lemma disconnect_releases_exactly_witness :
  let sv := state (run Demo.w0 (Demo.joined ++ [Request 0 "A" (LockObject "s1");
                                                Request 0 "B" (LockObject "s2")])).1 in
  lock_of (locks (srv (on_disconnect Demo.skA sv))) "b" "s2" = Some (Lock.mk "B" "u2" 0) /\
  (ToRoom "b", EvLockUpdate "s1" false None) ∈ out (on_disconnect Demo.skA sv).
Proof.
  intros sv.
  destruct (disconnect_releases_exactly Demo.skA sv "b" eq_refl) as (Hkept & Hsent & _).
  split.
  - apply Hkept. split; [reflexivity | simpl; discriminate].
  - apply Hsent. exists (Lock.mk "A" "u1" 0). split; reflexivity.
Defined.

(** ** Access to a board and [join-board] *)

Lemma existsb_eqb_elem_of (uid : string) (l : list string) :
  existsb (fun a => String.eqb a uid) l = true <-> uid ∈ l.
Proof.
  rewrite existsb_exists. split.
  - intros (a & Hin & Heq). apply String.eqb_eq in Heq as ->. by apply list_elem_of_In.
  - intros Hin. exists uid. split; [by apply list_elem_of_In | apply String.eqb_refl].
Qed.

(** When [checkBoardAccess] answers [true]. *)
Lemma checkBoardAccess_true (sv : server) (boardId : string) (userId : option string) :
  checkBoardAccess sv boardId userId = true <->
  exists b uid, db sv !! boardId = Some b /\ userId = Some uid /\ uid <> "" /\
                (ownerId b = uid \/ uid ∈ allowedUsers b).
Proof.
  unfold checkBoardAccess. split.
  - destruct (db sv !! boardId) as [b|]; [|discriminate].
    destruct userId as [uid|]; [|discriminate].
    destruct (String.eqb uid "") eqn:He; [discriminate|].
    intros H. exists b, uid. apply String.eqb_neq in He.
    repeat split; auto. apply orb_true_iff in H as [H|H].
    + left. by apply String.eqb_eq.
    + right. by apply existsb_eqb_elem_of.
  - intros (b & uid & -> & -> & Hne & H). apply String.eqb_neq in Hne. rewrite Hne.
    apply orb_true_iff. destruct H as [H|H].
    + left. by apply String.eqb_eq.
    + right. by apply existsb_eqb_elem_of.
Qed.

(** X9. [checkBoardAccess] grants access exactly to a non-empty user id
    that is the owner of an existing board or one of its allowed users; a
    missing user id, an empty one or a missing board is refused. *)
Theorem checkBoardAccess_iff (sv : server) (boardId : string) (userId : option string) :
  (checkBoardAccess sv boardId userId = true <->
   exists b uid, db sv !! boardId = Some b /\ userId = Some uid /\ uid <> "" /\
                 (ownerId b = uid \/ uid ∈ allowedUsers b)) /\
  checkBoardAccess sv boardId None = false /\
  checkBoardAccess sv boardId (Some "") = false /\
  (db sv !! boardId = None -> checkBoardAccess sv boardId userId = false).
Proof.
  split; [apply checkBoardAccess_true|].
  unfold checkBoardAccess.
  split; [destruct (db sv !! boardId); reflexivity|].
  split; [destruct (db sv !! boardId); reflexivity|].
  intros ->. reflexivity.
Qed.

Lemma generateUserColor_in_palette (rnd : nat) : generateUserColor rnd ∈ colors.
Proof.
  unfold generateUserColor. apply list_elem_of_In, nth_In.
  apply Nat.mod_upper_bound. discriminate.
Qed.

(** X10. [join-board] never touches the stored boards or the lock table,
    and it has two outcomes. Either the request is refused: the requester
    is told so, the presence table is unchanged and the socket stays on
    the board it was on. Or the socket carries an authenticated user who
    owns the board or is among its allowed users: the socket is then on
    the board, with a presence entry under that user's id, a palette
    color and the cursor at the origin; it receives the stored shapes and
    ops with the board's lock table as it stands, then the entries of the
    board's presence table, in an order that the table as a finite map
    does not fix, and the others on the board are told. *)
Theorem join_board_outcome (boardId : string) (auth : option (option User.t))
    (rnd : nat) (sk : Socket.t) (sv : server) :
  let o := on_join_board boardId auth rnd sk sv in
  db (srv o) = db sv /\
  locks (srv o) = locks sv /\
  Socket.id (sock o) = Socket.id sk /\
  Socket.userData (sock o) = Socket.userData (authenticated auth sk) /\
  ((out o = [(ToSocket (Socket.id sk), EvError "Access denied to this board")] /\
    presence (srv o) = presence sv /\
    Socket.currentBoardId (sock o) = Socket.currentBoardId sk) \/
   (exists b u entry tbl entries,
      db sv !! boardId = Some b /\
      Socket.userData (sock o) = Some u /\
      User.userId u <> "" /\
      (ownerId b = User.userId u \/ User.userId u ∈ allowedUsers b) /\
      Socket.currentBoardId (sock o) = Some boardId /\
      presence (srv o) !! boardId = Some tbl /\
      tbl !! Socket.id sk = Some entry /\
      Presence.userId entry = User.userId u /\
      Presence.cursor entry = (VNum 0, VNum 0) /\
      Presence.color entry ∈ colors /\
      entries ≡ₚ snd <$> map_to_list tbl /\
      out o =
        [(ToSocket (Socket.id sk),
          EvBoardState (shapes b) (ops b) (default ∅ (locks sv !! boardId)));
         (ToSocket (Socket.id sk), EvPresenceState entries);
         (ToOthers boardId (Socket.id sk), EvUserJoined entry)])).
Proof.
  unfold on_join_board. fold (authenticated auth sk).
  set (sk1 := authenticated auth sk).
  assert (Hid : Socket.id sk1 = Socket.id sk) by (unfold sk1; destruct auth; reflexivity).
  assert (Hcb : Socket.currentBoardId sk1 = Socket.currentBoardId sk)
    by (unfold sk1; destruct auth; reflexivity).
  destruct (checkBoardAccess sv boardId (User.userId <$> Socket.userData sk1)) eqn:Hacc;
    simpl.
  - apply checkBoardAccess_true in Hacc as (b & uid & Hdb & Hu & Hne & Hmem).
    destruct (Socket.userData sk1) as [u|] eqn:Hud; [|discriminate].
    injection Hu as <-.
    assert (Hdb1 : db (match currentBoard sk1 with
                       | Some prev => with_presence sv
                                        (presence_remove prev (Socket.id sk1) (presence sv))
                       | None => sv
                       end) !! boardId = Some b).
    { destruct (currentBoard sk1); exact Hdb. }
    rewrite Hdb1. simpl. rewrite Hid.
    repeat split; try (destruct (currentBoard sk1); reflexivity).
    right. apply String.eqb_neq in Hne as Hne'. rewrite Hne'.
    eexists b, u, _, _, _.
    split; [exact Hdb|]. split; [reflexivity|]. split; [exact Hne|].
    split; [exact Hmem|]. split; [reflexivity|].
    split; [apply lookup_insert_eq|]. split; [apply lookup_insert_eq|].
    split; [reflexivity|]. split; [reflexivity|].
    split; [apply generateUserColor_in_palette|].
    split; [reflexivity|].
    destruct (currentBoard sk1); reflexivity.
  - rewrite Hid. repeat split. left. repeat split. exact Hcb.
Qed.

(** X11. A socket without an authenticated user never joins: a
    [join-board] request without a token on a socket that has no user, or
    with a token that [authenticateSocket] rejects, is refused whatever
    the board, and a rejected token also clears the user of the socket. *)
Theorem join_board_needs_user (boardId : string) (auth : option (option User.t))
    (rnd : nat) (sk : Socket.t) (sv : server) :
  auth = Some None \/ (auth = None /\ Socket.userData sk = None) ->
  on_join_board boardId auth rnd sk sv =
    emit_error (Socket.mk (Socket.id sk) None (Socket.currentBoardId sk)) sv
      "Access denied to this board".
Proof.
  intros [-> | [-> Hu]]; unfold on_join_board; simpl.
  - unfold checkBoardAccess. simpl. destruct (db sv !! boardId); reflexivity.
  - rewrite Hu. unfold checkBoardAccess. simpl.
    destruct (db sv !! boardId); destruct sk; simpl in *; subst; reflexivity.
Qed.

Lemma join_board_needs_user_witness :
  out (on_join_board "b" (Some None) 3 Demo.skA (state Demo.w0)) =
    [(ToSocket "A", EvError "Access denied to this board")] /\
  Socket.userData (sock (on_join_board "b" (Some None) 3 Demo.skA (state Demo.w0))) = None.
Proof.
  rewrite (join_board_needs_user "b" (Some None) 3 Demo.skA (state Demo.w0))
    by (left; reflexivity).
  split; reflexivity.
Defined.

(** X12. Joining a second board moves the presence entry: after a
    successful [join-board] from a socket that is on another board, the
    socket has no entry on the board it came from, the entries of the
    other sockets there are kept, and no event is addressed to the room it
    left. *)
Theorem join_board_moves_presence (boardId prev : string)
    (auth : option (option User.t)) (rnd : nat) (sk : Socket.t) (sv : server) :
  currentBoard sk = Some prev ->
  prev <> boardId ->
  checkBoardAccess sv boardId
    (User.userId <$> Socket.userData (authenticated auth sk)) = true ->
  let o := on_join_board boardId auth rnd sk sv in
  currentBoard (sock o) = (if String.eqb boardId "" then None else Some boardId) /\
  (presence (srv o) !! prev ≫= fun tbl => tbl !! Socket.id sk) = None /\
  (forall other, other <> Socket.id sk ->
     (presence (srv o) !! prev ≫= fun tbl => tbl !! other) =
     (presence sv !! prev ≫= fun tbl => tbl !! other)) /\
  (forall t e, (t, e) ∈ out o ->
     t = ToSocket (Socket.id sk) \/ t = ToOthers boardId (Socket.id sk)).
Proof.
  intros Hprev Hne Hacc. unfold on_join_board. fold (authenticated auth sk).
  set (sk1 := authenticated auth sk) in *.
  assert (Hid : Socket.id sk1 = Socket.id sk) by (unfold sk1; destruct auth; reflexivity).
  assert (Hcb : currentBoard sk1 = Some prev).
  { unfold sk1. destruct auth; exact Hprev. }
  rewrite Hacc, Hcb. simpl.
  apply checkBoardAccess_true in Hacc as (b & uid & Hdb & _).
  rewrite Hdb. simpl. rewrite Hid.
  split; [reflexivity|].
  rewrite lookup_insert_ne by congruence.
  unfold presence_remove.
  destruct (presence sv !! prev) as [tbl|] eqn:Htbl.
  - rewrite lookup_insert_eq. simpl. split; [apply lookup_delete_eq|].
    split; [intros other Ho; by rewrite lookup_delete_ne|].
    intros t e Hin. repeat (apply elem_of_cons in Hin as [[= -> _]|Hin]; [auto|]).
    by apply elem_of_nil in Hin.
  - rewrite Htbl. simpl. split; [reflexivity|]. split; [reflexivity|].
    intros t e Hin. repeat (apply elem_of_cons in Hin as [[= -> _]|Hin]; [auto|]).
    by apply elem_of_nil in Hin.
Qed.

Lemma join_board_moves_presence_witness :
  let w := (run Demo2.w0 [Connection "A";
                          Request 0 "A" (JoinBoard "b" (Some (Some Demo.alice)) 0)]).1 in
  let o := on_join_board "c" None 2 Demo.skA (state w) in
  (presence (state w) !! "b" ≫= fun tbl => tbl !! "A") =
    Some (Presence.mk "u1" "Alice" "#FF6B6B" (VNum 0, VNum 0)) /\
  currentBoard (sock o) = Some "c" /\
  (presence (srv o) !! "b" ≫= fun tbl => tbl !! "A") = None.
Proof.
  intros w o. split; [reflexivity|].
  destruct (join_board_moves_presence "c" "b" None 2 Demo.skA (state w))
    as (H1 & H2 & _); [reflexivity | discriminate | reflexivity |].
  split; [exact H1 | exact H2].
Defined.

(** ** Drawing events and created shapes *)

Lemma with_userId_spec (sk : Socket.t) (data : jsobj) :
  prop (with_userId sk data) "userId" = VStr (userId_or_id sk) /\
  (forall k, k <> "userId" -> with_userId sk data !! k = data !! k).
Proof.
  unfold with_userId, prop. rewrite lookup_insert_eq. split; [reflexivity|].
  intros k Hk. by rewrite lookup_insert_ne.
Qed.

(** X13. The [draw-start] and [draw-delta] events that are passed on
    carry the identity of the sending socket as [userId], whatever
    [userId] the client put in the payload, and every other field as the
    client sent it. They go to the others on the board, not to the
    sender, and nothing on the server changes, whether the board is in
    the store or not. *)
Theorem draw_events_carry_sender (data : jsobj) (sk : Socket.t)
    (sv : server) (boardId : string) :
  currentBoard sk = Some boardId ->
  exists d,
    prop d "userId" = VStr (userId_or_id sk) /\
    (forall k, k <> "userId" -> d !! k = data !! k) /\
    on_draw_start data sk sv =
      mkOutcome sk sv [(ToOthers boardId (Socket.id sk), EvDrawStart d)] /\
    on_draw_delta data sk sv =
      mkOutcome sk sv [(ToOthers boardId (Socket.id sk), EvDrawDelta d)].
Proof.
  intros Hb. exists (with_userId sk data).
  destruct (with_userId_spec sk data) as [H1 H2].
  unfold on_draw_start, on_draw_delta. rewrite Hb.
  repeat split; auto.
Qed.

Lemma draw_events_carry_sender_witness :
  exists d,
    out (on_draw_start {["userId" := VStr "u1"; "x" := VNum 4]} Demo.skB
           (state (run Demo.w0 Demo.joined).1)) =
      [(ToOthers "b" "B", EvDrawStart d)] /\
    prop d "userId" = VStr "u2" /\ d !! "x" = Some (VNum 4).
Proof.
  destruct (draw_events_carry_sender {["userId" := VStr "u1"; "x" := VNum 4]} Demo.skB
              (state (run Demo.w0 Demo.joined).1) "b" eq_refl)
    as (d & Hu & Hk & H & _).
  exists d. rewrite H. split; [reflexivity|]. split; [exact Hu|].
  rewrite Hk by discriminate. reflexivity.
Defined.

Lemma lookup_list_to_map_not_in (l : list (string * value)) (k : string) :
  k ∉ l.*1 -> (list_to_map l : jsobj) !! k = None.
Proof. intros H. by apply not_elem_of_list_to_map_1. Qed.

(** Under an id that the table does not inherit, the lock check of the
    handlers is the one JavaScript evaluates. *)
Lemma plain_lock_check (lk : gmap string (gmap string Lock.t))
    (boardId objectId : string) (sk : Socket.t) :
  Plain.inherited objectId = false ->
  Plain.refuses (Plain.lock_of lk boardId objectId) sk =
    locked_by_other (lock_of lk boardId objectId) sk.
Proof.
  intros Hown. unfold Plain.lock_of, lock_of.
  destruct (lk !! boardId) as [tbl|]; simpl; [|reflexivity].
  destruct (tbl !! objectId); simpl; [reflexivity|].
  rewrite Hown. reflexivity.
Qed.

(** A request that JavaScript's lock check lets through has found no
    lock of another socket in the table. *)
Lemma plain_lock_check_passes (lk : gmap string (gmap string Lock.t))
    (boardId objectId : string) (sk : Socket.t) :
  Plain.refuses (Plain.lock_of lk boardId objectId) sk = false ->
  locked_by_other (lock_of lk boardId objectId) sk = false.
Proof.
  unfold Plain.lock_of, lock_of.
  destruct (lk !! boardId) as [tbl|]; simpl; [|reflexivity].
  destruct (tbl !! objectId); simpl; [tauto|reflexivity].
Qed.

(** The validators of [id] and [type]. *)
Lemma required_spec (v : value) :
  Schema.required v = true <-> exists s, v = VStr s /\ s <> "".
Proof.
  destruct v as [| |?|?|s]; simpl;
    try (split; [discriminate | intros (? & [=] & _)]).
  rewrite negb_true_iff, String.eqb_neq. split.
  - intros H. eauto.
  - intros (? & [= <-] & H). exact H.
Qed.

Lemma in_enum_spec (v : value) :
  Schema.in_enum v = true <-> exists s, v = VStr s /\ s ∈ Schema.types.
Proof.
  destruct v as [| |?|?|s]; unfold Schema.in_enum;
    try (split; [discriminate | intros (? & [=] & _)]).
  rewrite existsb_exists. split.
  - intros (a & Hin & Heq). apply String.eqb_eq in Heq as ->.
    exists a. split; [reflexivity|]. by apply list_elem_of_In.
  - intros (? & [= <-] & H). exists s. split; [by apply list_elem_of_In|].
    apply String.eqb_refl.
Qed.

(** X14. For a payload whose shape the store accepts, [create-shape]
    builds the shape object on the server from a fixed list of fields:
    the creator and the creation time are those of the request, whatever
    the payload says, a property outside the list is not copied, a missing
    layer becomes [default] and a missing text [null]. This object is
    broadcast to the room. One op is appended to the log; its payload has
    no property outside the list and every value that the object defines.
    One shape is pushed behind the shapes already there; it has every
    string and number that the object defines, so that its id is a
    non-empty string and its type one of the four of the schema. *)
Theorem create_shape_stores_built_shape (now : Z) (data : jsobj) (sk : Socket.t)
    (sv : server) (boardId : string) (b : board) :
  currentBoard sk = Some boardId ->
  db sv !! boardId = Some b ->
  Schema.creates data = true ->
  exists s p s' b',
    out (on_create_shape now data sk sv) = [(ToRoom boardId, EvShapeCreated s)] /\
    prop s "createdBy" = actor sk /\
    prop s "createdAt" = VNum now /\
    (forall k, k ∈ ["id"; "type"; "x"; "y"; "width"; "height"; "color"; "strokeWidth"] ->
       prop s k = prop data k) /\
    prop s "layer" = or_else (prop data "layer") (VStr "default") /\
    prop s "text" = or_else (prop data "text") VNull /\
    (forall k, k ∉ shape_keys -> s !! k = None) /\
    db (srv (on_create_shape now data sk sv)) !! boardId = Some b' /\
    ops b' = (ops b ++ [mkOp (Create p) (actor sk) now])%list /\
    (forall k, prop s k <> VUndefined -> prop p k = prop s k) /\
    (forall k, k ∉ shape_keys -> p !! k = None) /\
    shapes b' = (shapes b ++ [s'])%list /\
    (forall k, k ∈ Schema.paths.*1 -> prop s k <> VUndefined -> prop s' k = prop s k) /\
    (exists id, prop s' "id" = VStr id /\ id <> "") /\
    (exists type, prop s' "type" = VStr type /\ type ∈ Schema.types).
Proof.
  intros Hb Hdb Hok.
  exists (new_shape now data sk), (new_shape now data sk), (new_shape now data sk).
  eexists.
  unfold on_create_shape. rewrite Hb, Hdb. simpl. rewrite lookup_insert_eq.
  unfold Schema.creates in Hok.
  apply andb_prop in Hok as [Hok _]. apply andb_prop in Hok as [Hid Hty].
  apply required_spec in Hid. apply in_enum_spec in Hty.
  assert (Hkeys : forall k, k ∉ shape_keys -> new_shape now data sk !! k = None).
  { intros k Hk. apply lookup_list_to_map_not_in. exact Hk. }
  assert (Hcopy : forall k,
            k ∈ ["id"; "type"; "x"; "y"; "width"; "height"; "color"; "strokeWidth"] ->
            prop (new_shape now data sk) k = prop data k).
  { intros k Hk.
    repeat (apply elem_of_cons in Hk as [->|Hk]; [reflexivity|]).
    by apply elem_of_nil in Hk. }
  rewrite (Hcopy "id") by apply list_elem_of_here.
  rewrite (Hcopy "type") by apply list_elem_of_further, list_elem_of_here.
  repeat split; auto.
Qed.

Lemma create_shape_stores_built_shape_witness :
  exists s p,
    out (on_create_shape 5 {["id" := VStr "s1"; "type" := VStr "circle";
                             "createdBy" := VStr "u1"; "zIndex" := VNum 3]}
           Demo.skB (state (run Demo.w0 Demo.joined).1)) =
      [(ToRoom "b", EvShapeCreated s)] /\
    prop s "createdBy" = VStr "u2" /\ s !! "zIndex" = None /\
    prop p "type" = VStr "circle".
Proof.
  destruct (create_shape_stores_built_shape 5
              {["id" := VStr "s1"; "type" := VStr "circle";
                "createdBy" := VStr "u1"; "zIndex" := VNum 3]}
              Demo.skB (state (run Demo.w0 Demo.joined).1) "b"
              (mkBoard "u1" ["u1"; "u2"] [] []))
    as (s & p & s' & b' & Hout & Hby & _ & Hcopy & _ & _ & Hkeys & _ & _ & Hp & _);
    [reflexivity | reflexivity | reflexivity |].
  exists s, p. split; [exact Hout|]. split; [exact Hby|]. split.
  - apply Hkeys. unfold shape_keys. intros Hin.
    repeat (apply elem_of_cons in Hin as [[=]|Hin]). by apply elem_of_nil in Hin.
  - rewrite Hp; rewrite (Hcopy "type") by (apply list_elem_of_further, list_elem_of_here);
      [reflexivity | discriminate].
Defined.

(** X15. For a payload without points whose shape the store accepts,
    [draw-end] builds a shape object that is a path whatever type the
    payload names, with the creator and creation time of the request.
    One op is appended to the log; its payload has no property outside
    the eight of a path and every value that the object defines. One
    shape is pushed behind the shapes already there; it has every string
    and number that the object defines, so that it is a path with the id
    of the payload. The payload is then passed on to the whole room with the
    identity of the sender as [userId]. *)
Theorem draw_end_stores_path (now : Z) (data : jsobj) (sk : Socket.t)
    (sv : server) (boardId : string) (b : board) :
  currentBoard sk = Some boardId ->
  db sv !! boardId = Some b ->
  Schema.draws data = true ->
  exists s p s' b' d,
    out (on_draw_end now data sk sv) = [(ToRoom boardId, EvDrawEnd d)] /\
    prop d "userId" = VStr (userId_or_id sk) /\
    (forall k, k <> "userId" -> d !! k = data !! k) /\
    prop s "type" = VStr "path" /\
    prop s "createdBy" = actor sk /\
    prop s "createdAt" = VNum now /\
    (forall k, k ∈ ["id"; "color"; "strokeWidth"] -> prop s k = prop data k) /\
    prop s "layer" = or_else (prop data "layer") (VStr "default") /\
    db (srv (on_draw_end now data sk sv)) !! boardId = Some b' /\
    ops b' = (ops b ++ [mkOp (Create p) (actor sk) now])%list /\
    (forall k, prop s k <> VUndefined -> prop p k = prop s k) /\
    (forall k, k ∉ path_keys -> p !! k = None) /\
    shapes b' = (shapes b ++ [s'])%list /\
    (forall k, k ∈ Schema.paths.*1 -> prop s k <> VUndefined -> prop s' k = prop s k) /\
    (exists id, prop s' "id" = VStr id /\ id <> "").
Proof.
  intros Hb Hdb Hok.
  exists (path_shape now data sk), (path_shape now data sk), (path_shape now data sk).
  eexists. exists (with_userId sk data).
  destruct (with_userId_spec sk data) as [H1 H2].
  unfold on_draw_end. rewrite Hb, Hdb. simpl. rewrite lookup_insert_eq.
  unfold Schema.draws in Hok.
  repeat (apply andb_prop in Hok as [Hok _]).
  apply required_spec in Hok.
  assert (Hkeys : forall k, k ∉ path_keys -> path_shape now data sk !! k = None).
  { intros k Hk. apply lookup_list_to_map_not_in. exact Hk. }
  assert (Hcopy : forall k, k ∈ ["id"; "color"; "strokeWidth"] ->
            prop (path_shape now data sk) k = prop data k).
  { intros k Hk.
    repeat (apply elem_of_cons in Hk as [->|Hk]; [reflexivity|]).
    by apply elem_of_nil in Hk. }
  rewrite prop_path_shape_id.
  repeat split; auto.
Qed.

Lemma draw_end_stores_path_witness :
  exists s' b' d,
    out (on_draw_end 5 {["id" := VStr "p1"; "type" := VStr "rect"]}
           Demo.skB (state (run Demo.w0 Demo.joined).1)) = [(ToRoom "b", EvDrawEnd d)] /\
    db (srv (on_draw_end 5 {["id" := VStr "p1"; "type" := VStr "rect"]}
               Demo.skB (state (run Demo.w0 Demo.joined).1))) !! "b" = Some b' /\
    shapes b' = [s'] /\ prop s' "type" = VStr "path".
Proof.
  destruct (draw_end_stores_path 5 {["id" := VStr "p1"; "type" := VStr "rect"]}
              Demo.skB (state (run Demo.w0 Demo.joined).1) "b"
              (mkBoard "u1" ["u1"; "u2"] [] []))
    as (s & p & s' & b' & d & Hout & _ & _ & Ht & _ & _ & _ & _ & Hdb & _ & _ & _
        & Hs & Hst & _);
    [reflexivity | reflexivity | reflexivity |].
  exists s', b', d. split; [exact Hout|]. split; [exact Hdb|]. split; [exact Hs|].
  rewrite Hst; [exact Ht | | rewrite Ht; discriminate].
  apply list_elem_of_further, list_elem_of_here.
Defined.

(** ** [update-shape] and [delete-shape] *)

(** X16. An [update-shape] that passes the lock check as JavaScript
    evaluates it, with changes that the schema accepts, changes the one
    shape it finds, field by field: a property named in [changes] takes
    the new value, every other property of the shape and every other
    shape stay as they were, and the number of shapes is the same. The op
    appended records old values for no other property than those named in
    [changes], and for each of these that the shape defined, the value it
    had before. *)
Theorem update_shape_fieldwise (now : Z) (boardId shapeId : string) (changes : jsobj)
    (sk : Socket.t) (sv : server) (b : board) (i : nat) :
  currentBoard sk = Some boardId ->
  db sv !! boardId = Some b ->
  findIndex (has_id (VStr shapeId)) (shapes b) = Some i ->
  Plain.refuses
    (Plain.lock_of (cleanExpiredLocks now boardId (locks sv)) boardId shapeId) sk = false ->
  Schema.accepts changes = true ->
  exists b' s s' old,
    out (on_update_shape now shapeId changes sk sv) =
      [(ToRoom boardId, EvShapeUpdated shapeId changes)] /\
    db (srv (on_update_shape now shapeId changes sk sv)) !! boardId = Some b' /\
    shapes b !! i = Some s /\
    shapes b' !! i = Some s' /\
    (forall k, prop s' k = match changes !! k with Some v => v | None => prop s k end) /\
    (forall j, j <> i -> shapes b' !! j = shapes b !! j) /\
    length (shapes b') = length (shapes b) /\
    ops b' = (ops b ++ [mkOp (Update (VStr shapeId) changes (Some old)) (actor sk) now])%list /\
    (forall k, changes !! k = None -> old !! k = None) /\
    (forall k, changes !! k <> None -> prop s k <> VUndefined ->
       old !! k = Some (prop s k)).
Proof.
  intros Hb Hdb Hi Hfree _. apply plain_lock_check_passes in Hfree.
  rewrite (update_shape_applied now boardId shapeId sk sv b Hb Hdb changes i Hi Hfree).
  destruct (findIndex_Some _ _ _ Hi) as (s & Hs & _).
  eexists _, s, (assign s changes), (pick changes s). simpl.
  split; [reflexivity|].
  split; [apply lookup_insert_eq|]. simpl.
  split; [exact Hs|].
  split; [by rewrite list_lookup_alter_eq, Hs|].
  split; [intros k; apply prop_assign|].
  split; [intros j Hj; by apply list_lookup_alter_ne|].
  split; [apply length_alter|].
  split; [by rewrite Hs|].
  split; intros k; rewrite lookup_pick.
  - intros ->. reflexivity.
  - destruct (changes !! k); [reflexivity | congruence].
Qed.

Lemma update_shape_fieldwise_witness :
  let sv := state (run Demo.w0
                     (Demo.joined ++ [Request 0 "A" (CreateShape (Demo.rect "s1" 3))])).1 in
  exists b' s',
    db (srv (on_update_shape 1 "s1" {["x" := VNum 5]} Demo.skB sv)) !! "b" = Some b' /\
    shapes b' !! 0%nat = Some s' /\
    prop s' "x" = VNum 5 /\ prop s' "width" = VNum 10 /\
    exists old,
      payload <$> last (ops b') = Some (Update (VStr "s1") {["x" := VNum 5]} (Some old)) /\
      old !! "x" = Some (VNum 3) /\ old !! "width" = None.
Proof.
  intros sv.
  destruct (update_shape_fieldwise 1 "b" "s1" {["x" := VNum 5]} Demo.skB sv
              (push_created 0 (new_shape 0 (Demo.rect "s1" 3) Demo.skA) Demo.skA
                 (mkBoard "u1" ["u1"; "u2"] [] []))
              0%nat)
    as (b' & s & s' & old & _ & Hdb & Hs & Hs' & Hk & _ & _ & Hops & Hnone & Hold);
    [reflexivity | reflexivity | reflexivity | reflexivity | reflexivity |].
  exists b', s'. split; [exact Hdb|]. split; [exact Hs'|].
  injection Hs as <-.
  split; [rewrite Hk; reflexivity|]. split; [rewrite Hk; reflexivity|].
  exists old. rewrite Hops, last_snoc. split; [reflexivity|]. split.
  - rewrite Hold; [reflexivity | discriminate | discriminate].
  - apply Hnone. reflexivity.
Defined.

Lemma find_first {A} (p : A -> bool) (l : list A) (x : A) :
  List.find p l = Some x ->
  exists i, l !! i = Some x /\ p x = true /\
            forall j y, (j < i)%nat -> l !! j = Some y -> p y = false.
Proof.
  rewrite find_findIndex. destruct (findIndex p l) as [i|] eqn:Hi; simpl; [|discriminate].
  intros Hx. destruct (findIndex_Some p l i Hi) as (y & Hy & Hp & Hlt).
  exists i. rewrite Hx in Hy. injection Hy as <-. auto.
Qed.

Lemma filter_other_ids (v : value) (l : list jsobj) :
  List.filter (fun s => negb (has_id v s)) l = filter (fun s => prop s "id" <> v) l.
Proof.
  induction l as [|s l IH]; [reflexivity|]. simpl.
  rewrite filter_cons. destruct (has_id v s) eqn:Hs; simpl.
  - apply has_id_true in Hs. rewrite decide_False by tauto. exact IH.
  - apply has_id_false in Hs. rewrite decide_True by exact Hs. by rewrite IH.
Qed.

(** X17. A [delete-shape] that passes the lock check as JavaScript
    evaluates it removes every shape that has the id, not only the first
    one, and nothing else: the shapes of other ids stay, in their order,
    and the shape set gets shorter. The op appended records the first
    shape of that id as the snapshot, and the room is told. *)
Theorem delete_shape_removes_all (now : Z) (boardId shapeId : string)
    (sk : Socket.t) (sv : server) (b : board) (shape : jsobj) :
  currentBoard sk = Some boardId ->
  db sv !! boardId = Some b ->
  List.find (has_id (VStr shapeId)) (shapes b) = Some shape ->
  Plain.refuses
    (Plain.lock_of (cleanExpiredLocks now boardId (locks sv)) boardId shapeId) sk = false ->
  exists b',
    out (on_delete_shape now shapeId sk sv) = [(ToRoom boardId, EvShapeDeleted shapeId)] /\
    db (srv (on_delete_shape now shapeId sk sv)) !! boardId = Some b' /\
    (forall s, s ∈ shapes b' <-> s ∈ shapes b /\ prop s "id" <> VStr shapeId) /\
    shapes b' `sublist_of` shapes b /\
    (length (shapes b') < length (shapes b))%nat /\
    ops b' = (ops b ++ [mkOp (Delete (VStr shapeId) shape) (actor sk) now])%list /\
    (exists i, shapes b !! i = Some shape /\ prop shape "id" = VStr shapeId /\
       forall j s, (j < i)%nat -> shapes b !! j = Some s -> prop s "id" <> VStr shapeId).
Proof.
  intros Hb Hdb Hf Hfree. apply plain_lock_check_passes in Hfree.
  rewrite (delete_shape_applied now boardId shapeId sk sv b Hb Hdb shape Hf Hfree).
  eexists. simpl. split; [reflexivity|]. split; [apply lookup_insert_eq|]. simpl.
  rewrite filter_other_ids. split; [|split; [|split; [|split]]].
  - intros s. rewrite list_elem_of_filter. tauto.
  - apply sublist_filter.
  - destruct (find_first _ _ _ Hf) as (i & Hi & Hp & _).
    apply (length_filter_lt _ _ shape).
    + eapply list_elem_of_lookup_2; eauto.
    + apply has_id_true in Hp. tauto.
  - reflexivity.
  - destruct (find_first _ _ _ Hf) as (i & Hi & Hp & Hlt).
    exists i. split; [exact Hi|]. split; [by apply has_id_true|].
    intros j s Hj Hs. apply has_id_false. eauto.
Qed.

Lemma delete_shape_removes_all_witness :
  let b3 := push_created 2 (new_shape 2 (Demo.rect "s1" 2) Demo.skB) Demo.skB
              (push_created 1 (new_shape 1 (Demo.rect "s2" 1) Demo.skA) Demo.skA Demo.b1) in
  let sv := state (run Demo.w0
                     (Demo.joined ++ [Request 0 "A" (CreateShape (Demo.rect "s1" 0));
                                      Request 1 "A" (CreateShape (Demo.rect "s2" 1));
                                      Request 2 "B" (CreateShape (Demo.rect "s1" 2))])).1 in
  db sv !! "b" = Some b3 /\
  exists b',
    db (srv (on_delete_shape 3 "s1" Demo.skB sv)) !! "b" = Some b' /\
    (forall s, s ∈ shapes b' <-> s ∈ shapes b3 /\ prop s "id" <> VStr "s1") /\
    (length (shapes b') < 3)%nat.
Proof.
  intros b3 sv. split; [reflexivity|].
  destruct (delete_shape_removes_all 3 "b" "s1" Demo.skB sv b3
              (new_shape 0 (Demo.rect "s1" 0) Demo.skA))
    as (b' & _ & Hdb & Hin & _ & Hlen & _); [reflexivity..|].
  exists b'. split; [exact Hdb|]. split; [exact Hin | exact Hlen].
Defined.

(** ** Requests that find nothing to act on *)

(** [update-shape] and [delete-shape] on an id that no shape of the
    board has are answered with the not-found error to the requester
    alone; nothing on the server changes, and the lock table is not even
    checked for expiry. *)
Lemma missing_shape_changes_nothing (now : Z) (boardId shapeId : string)
    (changes : jsobj) (sk : Socket.t) (sv : server) (b : board) :
  currentBoard sk = Some boardId ->
  db sv !! boardId = Some b ->
  (forall s, s ∈ shapes b -> prop s "id" <> VStr shapeId) ->
  on_update_shape now shapeId changes sk sv =
    mkOutcome sk sv [(ToSocket (Socket.id sk), EvError "Shape not found")] /\
  on_delete_shape now shapeId sk sv =
    mkOutcome sk sv [(ToSocket (Socket.id sk), EvError "Shape not found")].
Proof.
  intros Hb Hdb Hnone.
  apply (shape_not_found now boardId shapeId sk sv b Hb Hdb changes).
  apply Forall_forall. intros s Hs. apply has_id_false. auto.
Qed.

Lemma missing_shape_changes_nothing_witness :
  let sv := state (run Demo.w0 Demo.joined).1 in
  on_delete_shape 1 "s1" Demo.skA sv =
    mkOutcome Demo.skA sv [(ToSocket "A", EvError "Shape not found")].
Proof.
  intros sv.
  apply (missing_shape_changes_nothing 1 "b" "s1" ∅ Demo.skA sv
           (mkBoard "u1" ["u1"; "u2"] [] []) eq_refl eq_refl).
  intros s Hs. by apply elem_of_nil in Hs.
Defined.

(** X18. When the board of a joined socket is no longer in the store,
    [draw-end], [create-shape], [update-shape] and [delete-shape] are
    dropped without any event and without any change, and [undo] answers
    that there is nothing to undo. *)
Theorem missing_board_requests (now : Z) (boardId : string) (sk : Socket.t)
    (sv : server) (data changes : jsobj) (shapeId : string) :
  currentBoard sk = Some boardId ->
  db sv !! boardId = None ->
  on_draw_end now data sk sv = ignore sk sv /\
  on_create_shape now data sk sv = ignore sk sv /\
  on_update_shape now shapeId changes sk sv = ignore sk sv /\
  on_delete_shape now shapeId sk sv = ignore sk sv /\
  on_undo now sk sv = emit_error sk sv "Nothing to undo".
Proof.
  intros Hb Hdb.
  unfold on_draw_end, on_create_shape, on_update_shape, on_delete_shape, on_undo.
  rewrite Hb, Hdb. repeat split; reflexivity.
Qed.

Lemma missing_board_requests_witness :
  let sv := mkServer (∅ : gmap string board) ∅ ∅ in
  on_create_shape 1 (Demo.rect "s1" 0) Demo.skA sv = ignore Demo.skA sv /\
  out (on_undo 1 Demo.skA sv) = [(ToSocket "A", EvError "Nothing to undo")].
Proof.
  intros sv.
  assert (Hdb : db sv !! "b" = None) by reflexivity.
  destruct (missing_board_requests 1 "b" Demo.skA sv (Demo.rect "s1" 0) ∅ "s1"
              eq_refl Hdb) as (_ & Hc & _ & _ & Hu).
  split; [exact Hc|]. rewrite Hu. reflexivity.
Defined.

(** ** What a request leaves alone *)

Lemma grows_by_one_refl (b : board) : grows_by_one b b.
Proof. repeat split; auto. Qed.

Lemma applyOpToBoard_meta (b : board) (p : op_payload) :
  ownerId (applyOpToBoard b p) = ownerId b /\
  allowedUsers (applyOpToBoard b p) = allowedUsers b.
Proof. destruct p; simpl; repeat case_match; split; reflexivity. Qed.

Lemma handle_board (now : Z) (r : request) (sk : Socket.t) (sv : server)
    (boardId : string) (b : board) :
  db sv !! boardId = Some b ->
  exists b', db (srv (handle now r sk sv)) !! boardId = Some b' /\
             grows_by_one b b' /\
             (currentBoard sk <> Some boardId -> b' = b).
Proof.
  intros Hdb.
  assert (Hsame : forall sv', db sv' = db sv ->
            exists b', db sv' !! boardId = Some b' /\ grows_by_one b b' /\
                       (currentBoard sk <> Some boardId -> b' = b)).
  { intros sv' E. exists b. rewrite E. auto using grows_by_one_refl. }
  assert (Hpush : forall cur b0 b1 o (sv1 : server),
            currentBoard sk = Some cur -> db sv !! cur = Some b0 ->
            db sv1 = db sv ->
            ownerId b1 = ownerId b0 -> allowedUsers b1 = allowedUsers b0 ->
            ops b1 = ops b0 ->
            exists b', db (save cur (push_op b1 o) sv1) !! boardId = Some b' /\
                       grows_by_one b b' /\
                       (currentBoard sk <> Some boardId -> b' = b)).
  { intros cur b0 b1 o sv1 Hcur Hb0 E Ho Ha Hops. unfold save. simpl. rewrite E.
    destruct (decide (cur = boardId)) as [->|Hne].
    - rewrite lookup_insert_eq. eexists. split; [reflexivity|].
      rewrite Hdb in Hb0. injection Hb0 as <-.
      split; [|congruence]. repeat split; simpl; auto. right. exists o. by rewrite Hops.
    - rewrite lookup_insert_ne by exact Hne. exists b. auto using grows_by_one_refl. }
  destruct r; simpl.
  - unfold on_join_board. fold (authenticated auth sk).
    destruct (negb _); [by apply Hsame|].
    destruct (currentBoard (authenticated auth sk)); simpl;
      (destruct (db sv !! boardId0); by apply Hsame).
  - unfold on_leave_board. destruct (currentBoard sk); [|by apply Hsame].
    destruct (presence sv !! _); by apply Hsame.
  - unfold on_draw_start. destruct (currentBoard sk); by apply Hsame.
  - unfold on_draw_delta. destruct (currentBoard sk); by apply Hsame.
  - unfold on_draw_end. destruct (currentBoard sk) as [cur|] eqn:Hb; [|by apply Hsame].
    destruct (db sv !! cur) as [b0|] eqn:Hb0; [|by apply Hsame].
    simpl. unfold push_created. by eapply Hpush.
  - unfold on_create_shape. destruct (currentBoard sk) as [cur|] eqn:Hb; [|by apply Hsame].
    destruct (db sv !! cur) as [b0|] eqn:Hb0; [|by apply Hsame].
    simpl. unfold push_created. by eapply Hpush.
  - unfold on_update_shape. destruct (currentBoard sk) as [cur|] eqn:Hb; [|by apply Hsame].
    destruct (db sv !! cur) as [b0|] eqn:Hb0; [|by apply Hsame].
    destruct (findIndex _ _); [|by apply Hsame].
    simpl. destruct (locked_by_other _ _); [by apply Hsame|]. simpl. by eapply Hpush.
  - unfold on_delete_shape. destruct (currentBoard sk) as [cur|] eqn:Hb; [|by apply Hsame].
    destruct (db sv !! cur) as [b0|] eqn:Hb0; [|by apply Hsame].
    destruct (List.find _ _); [|by apply Hsame].
    simpl. destruct (locked_by_other _ _); [by apply Hsame|]. simpl. by eapply Hpush.
  - unfold on_undo. destruct (currentBoard sk) as [cur|] eqn:Hb; [|by apply Hsame].
    destruct (db sv !! cur) as [b0|] eqn:Hb0; [|by apply Hsame].
    destruct (last (ops b0)); [|by apply Hsame].
    destruct (createUndoOp _ _) as [p|]; [|by apply Hsame].
    simpl. destruct (applyOpToBoard_meta b0 p) as [Ho Ha].
    eapply Hpush; eauto using applyOpToBoard_ops.
  - unfold on_redo. destruct (currentBoard sk); by apply Hsame.
  - unfold on_lock_object. destruct (currentBoard sk); [|by apply Hsame].
    simpl. repeat case_match; by apply Hsame.
  - unfold on_unlock_object. repeat case_match; by apply Hsame.
  - unfold on_cursor_move. repeat case_match; by apply Hsame.
  - unfold on_disconnect. destruct (currentBoard sk); [|by apply Hsame].
    destruct (presence sv !! _); simpl; (destruct (locks sv !! _); by apply Hsame).
Qed.

Lemma step_board (w : world) (i : input) (boardId : string) (b : board) :
  db (state w) !! boardId = Some b ->
  exists b', db (state (step w i).1) !! boardId = Some b' /\ grows_by_one b b'.
Proof.
  intros Hdb. destruct i as [socketId | now socketId r | now]; simpl.
  - exists b. auto using grows_by_one_refl.
  - destruct (sockets w !! socketId) as [sk|]; simpl.
    + destruct (handle_board now r sk (state w) boardId b Hdb) as (b' & H1 & H2 & _).
      eauto.
    + exists b. auto using grows_by_one_refl.
  - exists b. auto using grows_by_one_refl.
Qed.

(** X19. The log of a board only grows. Whatever inputs the server
    processes, a stored board stays in the store, with the same owner and
    allowed users, and its earlier log is a prefix of its later log: no
    request removes, reorders or rewrites an entry. *)
Theorem log_append_only (tr : list input) (w : world) (boardId : string) (b : board) :
  db (state w) !! boardId = Some b ->
  exists b', db (state (run w tr).1) !! boardId = Some b' /\
             ops b `prefix_of` ops b' /\
             ownerId b' = ownerId b /\ allowedUsers b' = allowedUsers b.
Proof.
  revert w b. induction tr as [|i tr IH]; intros w b Hdb.
  - exists b. simpl. auto.
  - rewrite run_cons.
    destruct (step_board w i boardId b Hdb) as (b1 & Hdb1 & Ho & Ha & Hops).
    destruct (IH _ _ Hdb1) as (b' & Hdb' & Hpre & Ho' & Ha').
    exists b'. split; [exact Hdb'|]. split; [|split; congruence].
    etrans; [|exact Hpre].
    destruct Hops as [-> | [o ->]]; [reflexivity | by apply prefix_app_r].
Qed.

Lemma log_append_only_witness :
  let w := (run Demo.w0
              (Demo.joined ++ [Request 0 "A" (CreateShape (Demo.rect "s1" 0))])).1 in
  exists b', db (state (run w [Request 1 "B" (DeleteShape "s1"); Request 2 "A" Undo]).1)
               !! "b" = Some b' /\
             ops Demo.b1 `prefix_of` ops b'.
Proof.
  intros w.
  destruct (log_append_only [Request 1 "B" (DeleteShape "s1"); Request 2 "A" Undo]
              w "b" Demo.b1 eq_refl) as (b' & H & Hpre & _).
  exists b'. split; [exact H | exact Hpre].
Defined.

(** X20. One request touches one board. A request appends at most one op,
    and only to the log of the board the socket is on; every other stored
    board is left exactly as it is. *)
Theorem request_touches_one_board (now : Z) (r : request) (sk : Socket.t)
    (sv : server) (boardId : string) (b : board) :
  db sv !! boardId = Some b ->
  exists b', db (srv (handle now r sk sv)) !! boardId = Some b' /\
    (b' = b \/ exists o, ops b' = (ops b ++ [o])%list) /\
    (currentBoard sk <> Some boardId -> b' = b).
Proof.
  intros Hdb.
  destruct (handle_board now r sk sv boardId b Hdb) as (b' & H1 & (_ & _ & H2) & H3).
  eauto.
Qed.

Lemma request_touches_one_board_witness :
  let sv := mkServer {["b" := Demo.b1; "c" := new_board "u1"]} ∅ ∅ in
  db (srv (handle 5 Undo Demo.skA sv)) !! "c" = Some (new_board "u1").
Proof.
  intros sv.
  destruct (request_touches_one_board 5 Undo Demo.skA sv "c" (new_board "u1")
              ltac:(reflexivity)) as (b' & H & _ & Hsame).
  rewrite H. f_equal. apply Hsame. discriminate.
Defined.

(** X21. No event leaves the board. Apart from [join-board], every event
    that a request emits is addressed to the requesting socket itself, to
    the room of the board the socket is on, or to the others in that room;
    a socket that is on no board gets no request through and nothing is
    emitted. [join-board] addresses the requester and the others on the
    board that is joined. *)
Theorem events_stay_on_board (now : Z) (r : request) (sk : Socket.t) (sv : server)
    (t : target) (e : event) :
  (t, e) ∈ out (handle now r sk sv) ->
  match r with
  | JoinBoard boardId _ _ =>
      t = ToSocket (Socket.id sk) \/ t = ToOthers boardId (Socket.id sk)
  | _ =>
      exists boardId, currentBoard sk = Some boardId /\
        (t = ToSocket (Socket.id sk) \/ t = ToRoom boardId \/
         t = ToOthers boardId (Socket.id sk))
  end.
Proof.
  assert (Hone : forall (x : target * event) P,
            P x.1 -> forall y, y ∈ [x] -> P y.1).
  { intros x P HP y Hy. apply list_elem_of_singleton in Hy as ->. exact HP. }
  intros Hin. destruct r; simpl in Hin.
  - unfold on_join_board in Hin.
    assert (Hid : Socket.id (match auth with
                             | Some r => Socket.mk (Socket.id sk) r (Socket.currentBoardId sk)
                             | None => sk end) = Socket.id sk)
      by (destruct auth; reflexivity).
    destruct (negb _); simpl in Hin.
    + apply list_elem_of_singleton in Hin as [= -> _]. left. by rewrite Hid.
    + destruct (db _ !! boardId); simpl in Hin; rewrite ?Hid in Hin.
      * repeat (apply elem_of_cons in Hin as [[= -> _]|Hin]; [auto|]).
        by apply elem_of_nil in Hin.
      * apply list_elem_of_singleton in Hin as [= -> _]. auto.
  - unfold on_leave_board in Hin. destruct (currentBoard sk) as [cur|]; [|by apply elem_of_nil in Hin].
    exists cur. split; [reflexivity|].
    destruct (presence sv !! cur); simpl in Hin; [|by apply elem_of_nil in Hin].
    apply list_elem_of_singleton in Hin as [= -> _]. auto.
  - unfold on_draw_start in Hin. destruct (currentBoard sk) as [cur|]; [|by apply elem_of_nil in Hin].
    exists cur. apply list_elem_of_singleton in Hin as [= -> _]. auto.
  - unfold on_draw_delta in Hin. destruct (currentBoard sk) as [cur|]; [|by apply elem_of_nil in Hin].
    exists cur. apply list_elem_of_singleton in Hin as [= -> _]. auto.
  - unfold on_draw_end in Hin. destruct (currentBoard sk) as [cur|]; [|by apply elem_of_nil in Hin].
    exists cur. destruct (db sv !! cur); simpl in Hin; [|by apply elem_of_nil in Hin].
    apply list_elem_of_singleton in Hin as [= -> _]. auto.
  - unfold on_create_shape in Hin. destruct (currentBoard sk) as [cur|]; [|by apply elem_of_nil in Hin].
    exists cur. destruct (db sv !! cur); simpl in Hin; [|by apply elem_of_nil in Hin].
    apply list_elem_of_singleton in Hin as [= -> _]. auto.
  - unfold on_update_shape in Hin. destruct (currentBoard sk) as [cur|]; [|by apply elem_of_nil in Hin].
    exists cur. destruct (db sv !! cur); simpl in Hin; [|by apply elem_of_nil in Hin].
    destruct (findIndex _ _); simpl in Hin;
      [destruct (locked_by_other _ _); simpl in Hin|];
      apply list_elem_of_singleton in Hin as [= -> _]; auto.
  - unfold on_delete_shape in Hin. destruct (currentBoard sk) as [cur|]; [|by apply elem_of_nil in Hin].
    exists cur. destruct (db sv !! cur); simpl in Hin; [|by apply elem_of_nil in Hin].
    destruct (List.find _ _); simpl in Hin;
      [destruct (locked_by_other _ _); simpl in Hin|];
      apply list_elem_of_singleton in Hin as [= -> _]; auto.
  - unfold on_undo in Hin. destruct (currentBoard sk) as [cur|]; [|by apply elem_of_nil in Hin].
    exists cur. split; [reflexivity|].
    destruct (db sv !! cur) as [b|]; simpl in Hin;
      [destruct (last (ops b)); [destruct (createUndoOp _ _)|]|]; simpl in Hin;
      apply list_elem_of_singleton in Hin as [= -> _]; auto.
  - unfold on_redo in Hin. destruct (currentBoard sk) as [cur|]; [|by apply elem_of_nil in Hin].
    exists cur. apply list_elem_of_singleton in Hin as [= -> _]. auto.
  - unfold on_lock_object in Hin. destruct (currentBoard sk) as [cur|]; [|by apply elem_of_nil in Hin].
    exists cur. split; [reflexivity|]. simpl in Hin.
    destruct (_ !! objectId) as [l|]; [destruct (negb _)|]; simpl in Hin;
      apply list_elem_of_singleton in Hin as [= -> _]; auto.
  - unfold on_unlock_object in Hin. destruct (currentBoard sk) as [cur|]; [|by apply elem_of_nil in Hin].
    exists cur. split; [reflexivity|].
    destruct (locks sv !! cur) as [tbl|]; [|by apply elem_of_nil in Hin].
    destruct (tbl !! objectId) as [l|]; [|by apply elem_of_nil in Hin].
    destruct (negb _); simpl in Hin; [by apply elem_of_nil in Hin|].
    apply list_elem_of_singleton in Hin as [= -> _]. auto.
  - unfold on_cursor_move in Hin. destruct (currentBoard sk) as [cur|]; [|by apply elem_of_nil in Hin].
    exists cur. split; [reflexivity|].
    destruct (_ ≫= _); simpl in Hin; [|by apply elem_of_nil in Hin].
    apply list_elem_of_singleton in Hin as [= -> _]. auto.
  - unfold on_disconnect in Hin. destruct (currentBoard sk) as [cur|]; [|by apply elem_of_nil in Hin].
    exists cur. split; [reflexivity|].
    destruct (presence sv !! cur); simpl in Hin;
      (destruct (locks _ !! cur); simpl in Hin);
      repeat (apply elem_of_cons in Hin as [[= -> _]|Hin]; [auto|]);
      try (by apply elem_of_nil in Hin);
      apply list_elem_of_fmap in Hin as (kv & [= -> _] & _); auto.
Qed.

Lemma events_stay_on_board_witness :
  let sv := state (run Demo.w0 (Demo.joined ++ [Request 0 "A" (LockObject "s1")])).1 in
  exists boardId, currentBoard Demo.skA = Some boardId /\
    (ToRoom "b" = ToSocket "A" \/ ToRoom "b" = ToRoom boardId \/
     ToRoom "b" = ToOthers boardId "A").
Proof.
  intros sv.
  apply (events_stay_on_board 1 Disconnect Demo.skA sv (ToRoom "b")
           (EvLockUpdate "s1" false None)).
  vm_compute. apply list_elem_of_In. simpl. auto.
Defined.

(** ** More on undo *)

(** X22. An update that renames a shape cannot be undone. After an
    [update-shape] that passed the lock check as JavaScript evaluates it,
    with changes that the schema accepts, and that gave the shape a new
    id, with no other shape carrying the old one, [undo] looks for the
    old id, finds no shape, answers that the operation cannot be undone,
    and changes nothing. *)
Theorem undo_after_rename_refused (now t : Z) (sk sk' : Socket.t) (sv : server)
    (boardId shapeId : string) (b : board) (i : nat) (changes : jsobj)
    (newId : value) :
  currentBoard sk = Some boardId ->
  currentBoard sk' = Some boardId ->
  db sv !! boardId = Some b ->
  findIndex (has_id (VStr shapeId)) (shapes b) = Some i ->
  Plain.refuses
    (Plain.lock_of (cleanExpiredLocks now boardId (locks sv)) boardId shapeId) sk = false ->
  Schema.accepts changes = true ->
  changes !! "id" = Some newId ->
  newId <> VStr shapeId ->
  (forall j s, j <> i -> shapes b !! j = Some s -> prop s "id" <> VStr shapeId) ->
  let sv1 := srv (on_update_shape now shapeId changes sk sv) in
  out (on_update_shape now shapeId changes sk sv) =
    [(ToRoom boardId, EvShapeUpdated shapeId changes)] /\
  on_undo t sk' sv1 = emit_error sk' sv1 "Cannot undo this operation".
Proof.
  intros Hb Hb' Hdb Hi Hfree _ Hnew Hne Hothers sv1. subst sv1.
  apply plain_lock_check_passes in Hfree.
  rewrite (update_shape_applied now boardId shapeId sk sv b Hb Hdb changes i Hi Hfree).
  split; [reflexivity|].
  destruct (findIndex_Some _ _ _ Hi) as (s & Hs & _).
  assert (Hgone : List.find (has_id (VStr shapeId))
                    (alter (fun s => assign s changes) i (shapes b)) = None).
  { apply find_None_Forall, Forall_lookup. intros j x.
    destruct (decide (i = j)) as [<-|Hij].
    - rewrite list_lookup_alter_eq, Hs. intros [= <-].
      apply has_id_false. by rewrite prop_assign, Hnew.
    - rewrite list_lookup_alter_ne by exact Hij. intros Hx.
      apply has_id_false. eapply Hothers; eauto. }
  unfold on_undo. rewrite Hb'. simpl. rewrite lookup_insert_eq. simpl.
  rewrite last_snoc. simpl. rewrite Hgone. reflexivity.
Qed.

Lemma undo_after_rename_refused_witness :
  let sv := state (run Demo.w0
                     (Demo.joined ++ [Request 0 "A" (CreateShape (Demo.rect "s1" 0))])).1 in
  out (on_update_shape 1 "s1" {["id" := VStr "s9"]} Demo.skA sv) =
    [(ToRoom "b", EvShapeUpdated "s1" {["id" := VStr "s9"]})] /\
  on_undo 2 Demo.skB (srv (on_update_shape 1 "s1" {["id" := VStr "s9"]} Demo.skA sv)) =
    emit_error Demo.skB (srv (on_update_shape 1 "s1" {["id" := VStr "s9"]} Demo.skA sv))
      "Cannot undo this operation".
Proof.
  intros sv.
  apply (undo_after_rename_refused 1 2 Demo.skA Demo.skB sv "b" "s1" Demo.b1 0%nat
           {["id" := VStr "s9"]} (VStr "s9"));
    [ reflexivity | reflexivity | reflexivity | reflexivity | reflexivity
    | reflexivity | reflexivity | discriminate |].
  intros [|j] s Hj Hs; [congruence|]. destruct j; discriminate.
Defined.

(** X23. The compensating op of a create can itself be undone. When the
    log ends in a create op, two [undo] requests in a row first remove
    every shape of the created id and then put the created shape back at
    the end of the shape set; the log has grown by the delete op and the
    create op, in that order. *)
Theorem undo_twice_after_create (t1 t2 : Z) (sk1 sk2 : Socket.t) (sv : server)
    (boardId : string) (b : board) (lastOp : op) (shape : jsobj) :
  currentBoard sk1 = Some boardId ->
  currentBoard sk2 = Some boardId ->
  db sv !! boardId = Some b ->
  last (ops b) = Some lastOp ->
  payload lastOp = Create shape ->
  exists b2,
    db (srv (on_undo t2 sk2 (srv (on_undo t1 sk1 sv)))) !! boardId = Some b2 /\
    shapes b2 =
      (List.filter (fun s => negb (has_id (prop shape "id") s)) (shapes b) ++ [shape])%list /\
    ops b2 = (ops b ++ [mkOp (Delete (prop shape "id") shape) (actor sk1) t1;
                        mkOp (Create shape) (actor sk2) t2])%list.
Proof.
  intros Hb1 Hb2 Hdb Hlast Hp.
  unfold on_undo at 2. rewrite Hb1, Hdb, Hlast, Hp. simpl.
  unfold on_undo. rewrite Hb2. simpl. rewrite lookup_insert_eq. simpl.
  rewrite last_snoc. simpl. rewrite find_filter_negb. simpl.
  eexists. rewrite lookup_insert_eq. split; [reflexivity|]. simpl.
  split; [reflexivity|]. by rewrite <- app_assoc.
Qed.

Lemma undo_twice_after_create_witness :
  let sv := state (run Demo.w0
                     (Demo.joined ++ [Request 0 "A" (CreateShape (Demo.rect "s1" 0))])).1 in
  exists b2,
    db (srv (on_undo 2 Demo.skA (srv (on_undo 1 Demo.skB sv)))) !! "b" = Some b2 /\
    shapes b2 = shapes Demo.b1.
Proof.
  intros sv.
  destruct (undo_twice_after_create 1 2 Demo.skB Demo.skA sv "b" Demo.b1
              (mkOp (Create (new_shape 0 (Demo.rect "s1" 0) Demo.skA)) (VStr "u1") 0)
              (new_shape 0 (Demo.rect "s1" 0) Demo.skA)
              eq_refl eq_refl eq_refl eq_refl eq_refl) as (b2 & Hdb & Hs & _).
  exists b2. split; [exact Hdb|]. rewrite Hs. reflexivity.
Defined.

(** ** The logs of the boards the server reaches *)

(** X24. The log is a faithful record as long as ids are not reused by
    creates: from start-up over freshly created boards, after any sequence
    of inputs in which no [create-shape] or [draw-end] carries the id of a
    shape that is on its board at that moment, every stored board equals
    the replay of its own log from the empty shape set. *)
Theorem replay_faithful_from_start (d : gmap string board) (tr : list input) :
  (forall boardId b, d !! boardId = Some b -> shapes b = [] /\ ops b = []) ->
  fresh_trace (start d) tr ->
  forall boardId b,
    db (state (run (start d) tr).1) !! boardId = Some b ->
    replay (ops b) = shapes b.
Proof.
  intros Hd Hfresh. apply run_faithful; [by apply start_faithful | exact Hfresh].
Qed.

(** A create request is fresh when the board of its socket has no shape
    of its id. *)
Lemma fresh_create_intro (w : world) (socketId boardId : string) (sk0 : Socket.t)
    (b0 : board) (r : request) (v : value) :
  sockets w !! socketId = Some sk0 ->
  currentBoard sk0 = Some boardId ->
  db (state w) !! boardId = Some b0 ->
  (forall data, r = CreateShape data \/ r = DrawEnd data -> prop data "id" = v) ->
  List.find (has_id v) (shapes b0) = None ->
  forall sk, sockets w !! socketId = Some sk -> fresh_create r sk (state w).
Proof.
  intros Hs Hcur Hdb Hid Hfind sk Hsk data boardId' b Hr Hcur' Hdb'.
  rewrite Hs in Hsk. injection Hsk as <-.
  rewrite Hcur in Hcur'. injection Hcur' as <-.
  rewrite Hdb in Hdb'. injection Hdb' as <-.
  rewrite (Hid data Hr). exact Hfind.
Qed.

Lemma fresh_create_other (r : request) (sk : Socket.t) (sv : server) :
  (forall data, r <> CreateShape data /\ r <> DrawEnd data) -> fresh_create r sk sv.
Proof. intros H data boardId b [Hr|Hr]; destruct (H data); contradiction. Qed.

Lemma replay_faithful_from_start_witness :
  let tr := [Connection "A"; Request 0 "A" (JoinBoard "b" (Some (Some Demo.alice)) 0);
             Request 0 "A" (CreateShape (Demo.rect "s1" 0));
             Request 1 "A" (DeleteShape "s1");
             Request 2 "A" (CreateShape (Demo.rect "s1" 4))] in
  fresh_trace Demo.w0 tr /\
  exists b, db (state (run Demo.w0 tr).1) !! "b" = Some b /\
            length (ops b) = 3%nat /\ replay (ops b) = shapes b.
Proof.
  intros tr.
  assert (Hfresh : fresh_trace Demo.w0 tr).
  { unfold tr. cbn [fresh_trace].
    split; [exact I|].
    split; [intros sk _; apply fresh_create_other; split; discriminate|].
    split.
    { apply (fresh_create_intro _ "A" "b" Demo.skA (mkBoard "u1" ["u1"; "u2"] [] [])
               _ (VStr "s1")); try reflexivity.
      intros data [[= <-]|[=]]. reflexivity. }
    split; [intros sk _; apply fresh_create_other; split; discriminate|].
    split; [|exact I].
    apply (fresh_create_intro _ "A" "b" Demo.skA Demo.b2 _ (VStr "s1")); try reflexivity.
    intros data [[= <-]|[=]]. reflexivity. }
  split; [exact Hfresh|].
  exists (push_created 2 (new_shape 2 (Demo.rect "s1" 4) Demo.skA) Demo.skA Demo.b2).
  split; [reflexivity|]. split; [reflexivity|].
  apply (replay_faithful_from_start {["b" := mkBoard "u1" ["u1"; "u2"] [] []]} tr)
    with (boardId := "b"); [ | exact Hfresh | reflexivity].
  intros boardId b0 H. apply lookup_singleton_Some in H as [_ <-]. split; reflexivity.
Defined.

(** ** [cursor-move] *)

(** X25. [cursor-move] moves the cursor of the sender and nothing else:
    the user id, name and color of its presence entry stay, the entries of
    the other sockets stay, boards and locks are untouched, and the others
    on the board are sent the update under the user id of the entry. A
    socket without a presence entry on its board is ignored. *)
Theorem cursor_move_own_entry (data : jsobj) (sk : Socket.t) (sv : server)
    (boardId : string) (tbl : gmap string Presence.t) :
  currentBoard sk = Some boardId ->
  presence sv !! boardId = Some tbl ->
  (forall entry, tbl !! Socket.id sk = Some entry ->
     out (on_cursor_move data sk sv) =
       [(ToOthers boardId (Socket.id sk), EvCursorUpdate (Presence.userId entry) data)] /\
     db (srv (on_cursor_move data sk sv)) = db sv /\
     locks (srv (on_cursor_move data sk sv)) = locks sv /\
     exists tbl',
       presence (srv (on_cursor_move data sk sv)) !! boardId = Some tbl' /\
       tbl' !! Socket.id sk =
         Some (Presence.mk (Presence.userId entry) (Presence.userName entry)
                 (Presence.color entry) (prop data "x", prop data "y")) /\
       (forall other, other <> Socket.id sk -> tbl' !! other = tbl !! other)) /\
  (tbl !! Socket.id sk = None -> on_cursor_move data sk sv = ignore sk sv).
Proof.
  intros Hb Hp. unfold on_cursor_move. rewrite Hb, Hp. simpl. split.
  - intros entry He. rewrite He. simpl. repeat split.
    eexists. rewrite lookup_insert_eq. split; [reflexivity|].
    split; [apply lookup_insert_eq|]. intros other Ho. by rewrite lookup_insert_ne.
  - intros He. rewrite He. reflexivity.
Qed.

Lemma cursor_move_own_entry_witness :
  let sv := state (run Demo.w0 Demo.joined).1 in
  out (on_cursor_move {["x" := VNum 7; "y" := VNum 9]} Demo.skB sv) =
    [(ToOthers "b" "B", EvCursorUpdate "u2" {["x" := VNum 7; "y" := VNum 9]})].
Proof.
  intros sv.
  destruct (presence sv !! "b") as [tbl|] eqn:Hp; [|discriminate].
  destruct (cursor_move_own_entry {["x" := VNum 7; "y" := VNum 9]} Demo.skB sv "b" tbl
              eq_refl Hp) as [H _].
  apply (H (Presence.mk "u2" "Bob" (generateUserColor 1) (VNum 0, VNum 0))).
  injection Hp as <-. reflexivity.
Defined.

(** ** The board routes *)

(** X26. The board routes and the socket server agree on who may see a
    board: for a non-empty user id, [GET /api/boards/:id] returns the
    board exactly when [checkBoardAccess] lets that user join it. *)
Theorem rest_access_is_socket_access (sv : server) (id userId : string) :
  userId <> "" ->
  (checkBoardAccess sv id (Some userId) = true <->
   exists b, Rest.get_board (db sv) id userId = Rest.BoardDoc b) /\
  (forall b, Rest.get_board (db sv) id userId = Rest.BoardDoc b -> db sv !! id = Some b).
Proof.
  intros Hne. apply String.eqb_neq in Hne.
  unfold checkBoardAccess, Rest.get_board, Rest.hasAccess. rewrite Hne.
  destruct (db sv !! id) as [b|]; simpl.
  - destruct (_ || _); simpl; split.
    + split; eauto.
    + intros b' [= <-]. reflexivity.
    + split; [discriminate | intros [b' [=]]].
    + intros b' [=].
  - split; [split; [discriminate | intros [b' [=]]] | intros b' [=]].
Qed.

Lemma rest_access_is_socket_access_witness :
  Rest.get_board (db (state Demo.w0)) "b" "u2" = Rest.BoardDoc (mkBoard "u1" ["u1"; "u2"] [] []) /\
  checkBoardAccess (state Demo.w0) "b" (Some "u2") = true.
Proof.
  split; [reflexivity|].
  apply (rest_access_is_socket_access (state Demo.w0) "b" "u2"); [discriminate|].
  eexists. reflexivity.
Defined.

(** X27. An invitation changes one list. [POST /api/boards/:id/invite]
    either fails and leaves the store as it is, or it was sent by a user
    with access to the board, for a registered e-mail address whose user
    is not yet among the allowed users, and it appends that user to the
    allowed users of that board: owner, shapes and log of the board and
    all other boards stay as they are, everybody who could join the board
    still can, and so can the invited user. Allowed users that were
    without repetition stay so. *)
Theorem invite_outcome (d : gmap string board) (users : gmap string string)
    (id userId : string) (userEmail : option string) :
  let r := Rest.invite d users id userId userEmail in
  ((exists status error, r.1 = Rest.Failure status error) /\ r.2 = d) \/
  (exists b email invited,
     userEmail = Some email /\
     d !! id = Some b /\
     Rest.hasAccess b userId = true /\
     users !! email = Some invited /\
     (invited ∉ allowedUsers b) /\
     r.1 = Rest.Done "User invited successfully" (Some (allowedUsers b ++ [invited])%list) /\
     r.2 = <[id := mkBoard (ownerId b) (allowedUsers b ++ [invited]) (shapes b) (ops b)]> d /\
     (NoDup (allowedUsers b) -> NoDup (allowedUsers b ++ [invited])) /\
     (forall sv sv' u, db sv = d -> db sv' = r.2 ->
        checkBoardAccess sv id u = true -> checkBoardAccess sv' id u = true) /\
     (forall sv', db sv' = r.2 -> invited <> "" ->
        checkBoardAccess sv' id (Some invited) = true)).
Proof.
  unfold Rest.invite.
  destruct userEmail as [email|]; [|left; simpl; eauto].
  destruct (String.eqb email ""); [left; simpl; eauto|].
  destruct (d !! id) as [b|] eqn:Hb; [|left; simpl; eauto].
  destruct (Rest.hasAccess b userId) eqn:Hacc; simpl; [|left; simpl; eauto].
  destruct (users !! email) as [invited|] eqn:Hu; [|left; simpl; eauto].
  destruct (existsb _ _) eqn:Hex; [left; simpl; eauto|].
  right. exists b, email, invited. simpl.
  assert (Hnin : invited ∉ allowedUsers b).
  { intros Hin. apply existsb_eqb_elem_of in Hin. congruence. }
  repeat split; auto.
  - intros Hnd. apply NoDup_app. repeat split; auto.
    + intros x Hx Hx'. apply list_elem_of_singleton in Hx' as ->. contradiction.
    + apply NoDup_singleton.
  - intros sv sv' u Hd Hd'. rewrite !checkBoardAccess_true, Hd, Hd'.
    intros (b0 & uid & Hb0 & -> & Hne & Hmem). rewrite Hb in Hb0. injection Hb0 as <-.
    eexists _, uid. rewrite lookup_insert_eq. split; [reflexivity|]. simpl.
    repeat split; auto. destruct Hmem as [|Hmem]; [auto|].
    right. apply elem_of_app. auto.
  - intros sv' Hd' Hne. apply checkBoardAccess_true.
    eexists _, invited. rewrite Hd', lookup_insert_eq. split; [reflexivity|]. simpl.
    repeat split; auto. right. apply elem_of_app. right. apply list_elem_of_here.
Qed.

Lemma invite_outcome_witness :
  let users : gmap string string := {["carol@example.org" := "u3"]} in
  let r := Rest.invite (db (state Demo.w0)) users "b" "u2" (Some "carol@example.org") in
  r.1 = Rest.Done "User invited successfully" (Some ["u1"; "u2"; "u3"]) /\
  checkBoardAccess (mkServer r.2 ∅ ∅) "b" (Some "u3") = true /\
  checkBoardAccess (state Demo.w0) "b" (Some "u3") = false.
Proof.
  intros users r.
  destruct (invite_outcome (db (state Demo.w0)) users "b" "u2" (Some "carol@example.org"))
    as [[(st & e & H) _] | (b & email & inv & He & Hb & _ & Hu & _ & _ & _ & _ & _ & Hjoin)].
  { discriminate H. }
  split; [reflexivity|]. split; [|reflexivity].
  injection He as <-. change (users !! "carol@example.org") with (Some "u3") in Hu.
  injection Hu as <-. apply Hjoin; [reflexivity | discriminate].
Defined.

(** X28. Only the owner deletes a board. [DELETE /api/boards/:id] from
    anybody else, allowed user or not, is refused and leaves the store as
    it is; from the owner it removes that board and no other. The sockets
    still on the board then get no shape request through: [create-shape]
    is dropped silently and [undo] finds nothing to undo. *)
Theorem delete_board_owner_only (d : gmap string board) (id userId : string) (b : board) :
  d !! id = Some b ->
  let r := Rest.delete_board d id userId in
  (userId <> ownerId b ->
     r = (Rest.Failure 403 "Only the owner can delete this board", d)) /\
  (userId = ownerId b ->
     r.1 = Rest.Done "Board deleted successfully" None /\
     r.2 !! id = None /\
     (forall id', id' <> id -> r.2 !! id' = d !! id') /\
     forall now sk sv data,
       db sv = r.2 -> currentBoard sk = Some id ->
       on_create_shape now data sk sv = ignore sk sv /\
       on_undo now sk sv = emit_error sk sv "Nothing to undo").
Proof.
  intros Hb. unfold Rest.delete_board. rewrite Hb. split.
  - intros Hne. assert (E : String.eqb (ownerId b) userId = false)
      by (apply String.eqb_neq; congruence).
    rewrite E. reflexivity.
  - intros ->. rewrite String.eqb_refl. simpl.
    split; [reflexivity|]. split; [apply lookup_delete_eq|].
    split; [intros id' Hne; by apply lookup_delete_ne|].
    intros now sk sv data Hd Hcur.
    assert (Hnone : db sv !! id = None) by (rewrite Hd; apply lookup_delete_eq).
    unfold on_create_shape, on_undo. rewrite Hcur, Hnone. split; reflexivity.
Qed.

Lemma delete_board_owner_only_witness :
  Rest.delete_board (db (state Demo.w0)) "b" "u2" =
    (Rest.Failure 403 "Only the owner can delete this board", db (state Demo.w0)) /\
  (Rest.delete_board (db (state Demo.w0)) "b" "u1").2 !! "b" = None.
Proof.
  pose proof (delete_board_owner_only (db (state Demo.w0)) "b" "u2"
                (mkBoard "u1" ["u1"; "u2"] [] []) ltac:(reflexivity)) as [H2 _].
  pose proof (delete_board_owner_only (db (state Demo.w0)) "b" "u1"
                (mkBoard "u1" ["u1"; "u2"] [] []) ltac:(reflexivity)) as [_ H1].
  split.
  - apply H2. discriminate.
  - apply H1. reflexivity.
Defined.

(** ** The token middleware *)

Lemma split_no_sep (sep : Ascii.ascii) (t : string) :
  (forall c, In c (list_ascii_of_string t) -> c <> sep) ->
  Middleware.split sep t = [t].
Proof.
  induction t as [|c t IH]; intros H; simpl; [reflexivity|].
  assert (Hc : Ascii.eqb c sep = false).
  { apply Ascii.eqb_neq. apply H. simpl. auto. }
  rewrite Hc, IH; [reflexivity|]. intros c' Hc'. apply H. simpl. auto.
Qed.

Lemma split_first_piece (scheme rest : string) :
  (forall c, In c (list_ascii_of_string scheme) -> c <> Middleware.space) ->
  Middleware.split Middleware.space (scheme ++ String Middleware.space rest) =
    scheme :: Middleware.split Middleware.space rest.
Proof.
  induction scheme as [|c s IH]; intros Hsp.
  - reflexivity.
  - assert (Hc : Ascii.eqb c Middleware.space = false).
    { apply Ascii.eqb_neq. apply Hsp. simpl. auto. }
    change (String c s ++ String Middleware.space rest)
      with (String c (s ++ String Middleware.space rest)).
    cbn [Middleware.split]. rewrite Hc, IH; [reflexivity|].
    intros c' Hc'. apply Hsp. simpl. auto.
Qed.

Lemma bearer_no_space (c : Ascii.ascii) :
  In c (list_ascii_of_string "Bearer") -> c <> Middleware.space.
Proof.
  simpl. intros H. repeat (destruct H as [<-|H]; [discriminate|]). contradiction.
Qed.

(** X29. The token that the client stores comes back out of the header it
    sends: for a non-empty token without a space, the middleware extracts
    from [getAuthHeaders]' [Authorization] header exactly that token, so
    that the request goes on with the decoded user when [jwt.verify]
    accepts the token and is answered 403 when it does not. Without a
    stored token no header is sent and the answer is 401. *)
Theorem bearer_round_trip {decoded : Type} (verify : string -> option decoded)
    (t : string) :
  t <> "" ->
  (forall c, In c (list_ascii_of_string t) -> c <> Middleware.space) ->
  Middleware.token_of (Middleware.authorization (Some t)) = Some t /\
  Middleware.authenticateToken verify (Middleware.authorization (Some t)) =
    match verify t with
    | Some d => Middleware.Next (Some d)
    | None => Middleware.Answer 403 "Invalid or expired token"
    end /\
  Middleware.authenticateToken verify (Middleware.authorization None) =
    Middleware.Answer 401 "Access token required".
Proof.
  intros Hne Hsp. apply String.eqb_neq in Hne.
  assert (Htok : Middleware.token_of (Middleware.authorization (Some t)) = Some t).
  { unfold Middleware.authorization, Middleware.token_of. rewrite Hne.
    change ("Bearer " ++ t) with ("Bearer" ++ String Middleware.space t).
    rewrite (split_first_piece "Bearer" t bearer_no_space).
    rewrite (split_no_sep Middleware.space t Hsp). reflexivity. }
  split; [exact Htok|]. split; [|reflexivity].
  unfold Middleware.authenticateToken. rewrite Htok, Hne. reflexivity.
Qed.

Lemma bearer_round_trip_witness :
  Middleware.token_of (Middleware.authorization (Some "abc.def")) = Some "abc.def".
Proof.
  apply (bearer_round_trip (fun _ : string => @None unit) "abc.def").
  - discriminate.
  - intros c Hc. simpl in Hc.
    repeat (destruct Hc as [<-|Hc]; [discriminate|]). contradiction.
Defined.

(** X30. What the middleware takes for the token is the second piece of
    the header between single spaces, whatever the first piece says: a
    header without a space, or with nothing between its first two spaces,
    is answered 401 by [authenticateToken], and [optionalAuth] never
    answers itself. *)
Theorem token_is_second_piece {decoded : Type} (verify : string -> option decoded)
    (scheme rest : string) :
  (forall c, In c (list_ascii_of_string scheme) -> c <> Middleware.space) ->
  Middleware.token_of (Some (scheme ++ String Middleware.space rest)) =
    head (Middleware.split Middleware.space rest) /\
  (scheme <> "" ->
   Middleware.authenticateToken verify (Some scheme) =
     Middleware.Answer 401 "Access token required") /\
  Middleware.authenticateToken verify
    (Some (scheme ++ String Middleware.space (String Middleware.space rest))) =
    Middleware.Answer 401 "Access token required" /\
  (forall h, exists u, Middleware.optionalAuth verify h = Middleware.Next u).
Proof.
  intros Hsp.
  assert (Hne : forall r, String.eqb (scheme ++ String Middleware.space r) "" = false).
  { intros r. destruct scheme; reflexivity. }
  split; [|split; [|split]].
  - unfold Middleware.token_of. rewrite Hne, split_first_piece by exact Hsp.
    destruct (Middleware.split Middleware.space rest); reflexivity.
  - intros Hs. apply String.eqb_neq in Hs.
    unfold Middleware.authenticateToken, Middleware.token_of. rewrite Hs.
    rewrite (split_no_sep Middleware.space scheme Hsp). reflexivity.
  - unfold Middleware.authenticateToken, Middleware.token_of.
    rewrite Hne, split_first_piece by exact Hsp. reflexivity.
  - intros h. unfold Middleware.optionalAuth.
    destruct (Middleware.token_of h) as [t|]; [destruct (String.eqb t "")|]; eauto.
Qed.

Lemma token_is_second_piece_witness :
  Middleware.token_of (Some "Basic abc def") = Some "abc" /\
  Middleware.authenticateToken (fun _ : string => @None unit) (Some "Bearer") =
    Middleware.Answer 401 "Access token required".
Proof.
  destruct (token_is_second_piece (fun _ : string => @None unit) "Basic" "abc def")
    as (H1 & _).
  { simpl. intros c H. repeat (destruct H as [<-|H]; [discriminate|]). contradiction. }
  destruct (token_is_second_piece (fun _ : string => @None unit) "Bearer" "")
    as (_ & H2 & _); [exact bearer_no_space|].
  split; [exact H1 | apply H2; discriminate].
Defined.
